(** * Ghost: gesture classifier, state manager and history-weighted shuffler

    A shallow embedding of the behaviour controller in [ghost/ghost.py]
    (and of the audio adapter in [ghost/hw/audio.py]), together with the
    properties its specification states about it.

    Conventions of the embedding:
    - monotonic-clock values and edge timestamps are exact integers, in
      milliseconds ([0.70] s is [700], [CHORD_GRACE_MS / 1000.0] s is [180]);
    - the weights of the shuffler are exact rationals where Python has floats;
    - every call site of [time.monotonic()] receives its own reading, supplied
      by the caller of the loop body, so that nothing is assumed about the
      time the interpreter takes between two statements;
    - a Python dict keyed by the two button names is a pair indexed by [Btn];
      a dict keyed by pool items is a [gmap]. *)

From Stdlib Require Import ZArith QArith Lia Lqa.
From stdpp Require Import base option list gmap strings.

Local Open Scope Z_scope.

(** ** Selection algorithm: [WeightedHistoryShuffler] *)

Module Shuffler.

Inductive exn : Type :=
| ValueError
| KeyError
| ZeroDivisionError
| OverflowError.

Section Pool.
Context {K : Type} `{Countable K}.

(** The instance attributes of a shuffler. [recent] is the deque, oldest
    element first, and [recent_window] its [maxlen]. *)
Record t : Type := mk {
  items : list K;
  _plays : gmap K Z;
  _last_pick_idx : gmap K Z;
  _pick_counter : Z;
  _recent : list K;
  recent_window : Z;
  _unheard_boost : Q;
  _age_boost : Q;
  _recent_penalty : Q;
  _min_weight : Q
}.

Definition set_plays (f : gmap K Z → gmap K Z) (s : t) : t :=
  mk (items s) (f (_plays s)) (_last_pick_idx s) (_pick_counter s) (_recent s)
     (recent_window s) (_unheard_boost s) (_age_boost s) (_recent_penalty s)
     (_min_weight s).

Definition set_last_pick_idx (f : gmap K Z → gmap K Z) (s : t) : t :=
  mk (items s) (_plays s) (f (_last_pick_idx s)) (_pick_counter s) (_recent s)
     (recent_window s) (_unheard_boost s) (_age_boost s) (_recent_penalty s)
     (_min_weight s).

Definition set_pick_counter (f : Z → Z) (s : t) : t :=
  mk (items s) (_plays s) (_last_pick_idx s) (f (_pick_counter s)) (_recent s)
     (recent_window s) (_unheard_boost s) (_age_boost s) (_recent_penalty s)
     (_min_weight s).

Definition set_recent (f : list K → list K) (s : t) : t :=
  mk (items s) (_plays s) (_last_pick_idx s) (_pick_counter s) (f (_recent s))
     (recent_window s) (_unheard_boost s) (_age_boost s) (_recent_penalty s)
     (_min_weight s).

(** Methods run in a state-and-exception monad over the instance: an
    exception leaves the attributes as they were when it was raised. *)
Definition M (A : Type) : Type := t → t * (exn + A).

Definition ret {A} (a : A) : M A := λ s, (s, inr a).
Definition raise {A} (e : exn) : M A := λ s, (s, inl e).
Definition bind {A B} (m : M A) (k : A → M B) : M B :=
  λ s, match m s with
       | (s', inl e) => (s', inl e)
       | (s', inr a) => k a s'
       end.
Definition get : M t := λ s, (s, inr s).
Definition modify (f : t → t) : M unit := λ s, (f s, inr tt).

(** [d[k]] on a dict: [KeyError] when the key is missing. *)
Definition subscript (d : gmap K Z) (k : K) : M Z :=
  match d !! k with
  | Some v => ret v
  | None => raise KeyError
  end.

(** [deque.append] with a [maxlen]: the new element goes to the right and,
    when the deque is over its bound, the leftmost one is discarded. *)
Definition deque_append (maxlen : Z) (d : list K) (x : K) : list K :=
  let d' := d ++ [x] in
  if maxlen <? Z.of_nat (length d') then tail d' else d'.

(** Python's [max(a, b)] on numbers: [b] only when it is strictly larger. *)
Definition pymax (a b : Q) : Q := if Qlt_le_dec a b then b else a.

(** The largest [Py_ssize_t] ([sys.maxsize]) of a 64-bit build. *)
Definition PY_SSIZE_T_MAX : Z := 2 ^ 63 - 1.

(** [__init__]: an empty pool is refused first (l.177-178);
    [deque(maxlen=recent_window)] (l.186) raises [OverflowError] for a bound
    that does not fit a [Py_ssize_t] and [ValueError] for a negative one.
    [fresh] is the instance the constructor leaves. *)
Definition fresh (its : list K) (window : Z)
    (unheard_boost age_boost recent_penalty min_weight : Q) : t :=
  mk its
     (list_to_map ((λ i, (i, 0)) <$> its))
     (list_to_map ((λ i, (i, - 10 ^ 9)) <$> its))
     0 [] window
     unheard_boost age_boost recent_penalty min_weight.

Definition init (its : list K) (window : Z)
    (unheard_boost age_boost recent_penalty min_weight : Q) : exn + t :=
  match its with
  | [] => inl ValueError
  | _ =>
      if (window <? - PY_SSIZE_T_MAX - 1) || (PY_SSIZE_T_MAX <? window)
      then inl OverflowError
      else if window <? 0 then inl ValueError
      else inr (fresh its window unheard_boost age_boost recent_penalty
                      min_weight)
  end.

(** The factors of [_weight], for a given tally [p], age and recency, the
    tally being other than [-1] (where l.199 divides by zero, see
    [_weight]). The binary64 numbers of the source are taken as the exact
    rationals they stand for: what is proved of the weights are their floor,
    their sign and their order, which rounding keeps. *)
Definition raw_weight (s : t) (p age : Z) (is_recent : bool) : Q :=
  let unheard : Q := (if p =? 0 then 1 else 0)%Q in
  let base : Q := (1 / (1 + inject_Z p))%Q in
  let w : Q :=
    (base * (1 + _unheard_boost s * unheard)
          * (1 + _age_boost s * inject_Z age))%Q in
  if is_recent then (w * pymax 0%Q (1 - _recent_penalty s)%Q)%Q else w.

Definition _weight (item : K) : M Q :=
  bind get (λ s,
  bind (subscript (_last_pick_idx s) item) (λ last,
  let age := Z.max 0 (_pick_counter s - last) in
  bind (subscript (_plays s) item) (λ p,
  if 1 + p =? 0 then raise ZeroDivisionError
  else ret (pymax (_min_weight s)
                  (raw_weight s p age (bool_decide (item ∈ _recent s))))))).

Definition _note_pick (item : K) : M unit :=
  bind get (λ s,
  bind (subscript (_plays s) item) (λ p,
  bind (modify (set_plays <[item := p + 1]>)) (λ _,
  bind (modify (λ s, set_last_pick_idx <[item := _pick_counter s]> s)) (λ _,
  bind (modify (λ s, set_recent (λ d, deque_append (recent_window s) d item) s)) (λ _,
  modify (set_pick_counter (λ c, c + 1))))))).

Definition observe (item : K) : M unit :=
  bind get (λ s,
  if bool_decide (item ∈ dom (_plays s)) then _note_pick item
  else raise ValueError).

(** [random.choices(population, weights, k=1)[0]], with the value [u] of the
    generator's [random()] made explicit: the running totals of the weights
    are formed, a non-positive total is a [ValueError], and the answer is
    the element at the first position, the last one excluded, whose running
    total exceeds [u * total]; it is the last element when there is none
    ([bisect] with [hi = n - 1]). The totals are exact where the source
    rounds them to binary64, and [random()] only returns multiples of
    [2^-53]: what is proved of a draw holds for every [u], and nothing is
    proved about which draws reach which item. *)
Fixpoint accumulate (acc : Q) (ws : list Q) : list Q :=
  match ws with
  | [] => []
  | w :: ws' => (acc + w)%Q :: accumulate (acc + w)%Q ws'
  end.

Fixpoint bisect (cum : list Q) (x : Q) (hi : nat) : nat :=
  match hi, cum with
  | S hi', c :: cum' => if Qlt_le_dec x c then O else S (bisect cum' x hi')
  | _, _ => O
  end.

Definition choices (population : list K) (weights : list Q) (u : Q)
    : exn + K :=
  let cum := accumulate 0%Q weights in
  match last cum with
  | None => inl ValueError
  | Some total =>
      if Qlt_le_dec 0%Q total then
        match population !! bisect cum (u * total)%Q (length population - 1)%nat with
        | Some x => inr x
        | None => inl ValueError
        end
      else inl ValueError
  end.


(** [[self._weight(i) for i in self.items]] *)
Fixpoint weights_of (its : list K) : M (list Q) :=
  match its with
  | [] => ret []
  | i :: its' =>
      bind (_weight i) (λ w,
      bind (weights_of its') (λ ws, ret (w :: ws)))
  end.

Definition next (u : Q) : M K :=
  bind get (λ s,
  bind (weights_of (items s)) (λ weights,
  match choices (items s) weights u with
  | inl e => raise e
  | inr choice => bind (_note_pick choice) (λ _, ret choice)
  end)).

(** The class invariant left by [__init__]: both dicts are keyed by exactly
    the pool items. *)
Definition keyed (s : t) : Prop :=
  (∀ k, k ∈ dom (_plays s) ↔ k ∈ items s) ∧
  (∀ k, k ∈ dom (_last_pick_idx s) ↔ k ∈ items s).

(** The tallies start at zero and only go up: none is negative. *)
Definition counted (s : t) : Prop :=
  ∀ k p, _plays s !! k = Some p → 0 ≤ p.

End Pool.

Arguments t K {_ _}.
Arguments M K {_ _} A.

(** The song pool of [preload_sing_assets] cut down to two titles, with the
    tuning of the source: [recent_window=2, unheard_boost=2.0,
    age_boost=0.15, recent_penalty=0.10] and the default
    [min_weight=0.05]. *)
Definition two_songs : list string := ["songs/billy.wav"; "songs/mulan.wav"]%string.

Definition two_song_shuffler : t string :=
  fresh two_songs 2 2%Q (15 # 100)%Q (10 # 100)%Q (5 # 100)%Q.


End Shuffler.

(** ** Gesture classifier and resync monitor: [input_monitor] *)

Module Classifier.

Inductive Btn : Type := B1 | B2.

Definition other (b : Btn) : Btn :=
  match b with B1 => B2 | B2 => B1 end.

Definition Btn_eqb (a b : Btn) : bool :=
  match a, b with B1, B1 | B2, B2 => true | _, _ => false end.

(** A dict whose keys are ["B1"] and ["B2"]. *)
Record PerBtn (A : Type) : Type := per { at_B1 : A; at_B2 : A }.
Arguments per {A} _ _.
Arguments at_B1 {A} _.
Arguments at_B2 {A} _.

Definition sel {A} (d : PerBtn A) (b : Btn) : A :=
  match b with B1 => at_B1 d | B2 => at_B2 d end.

Definition upd {A} (b : Btn) (v : A) (d : PerBtn A) : PerBtn A :=
  match b with
  | B1 => per v (at_B2 d)
  | B2 => per (at_B1 d) v
  end.

(** The event names posted on [event_queue]: ["B1_TAP"], ["B2_DOUBLE"],
    ["B1_HOLD"], ["B2_5TAP"], ["B1B2_CHORD"], ... *)
Inductive Gesture : Type :=
| Tap (b : Btn)
| Double (b : Btn)
| Hold (b : Btn)
| FiveTap (b : Btn)
| Chord.

Definition MIN_PULSE_MS : Z := 20.
Definition TAP_DECISION : Z := 700.
Definition HOLD_MS_BY_BTN (b : Btn) : Z :=
  match b with B1 => 800 | B2 => 3000 end.
Definition CHORD_GRACE_MS : Z := 180.
Definition CHORD_TAP_SUPPRESS_WINDOW : Z := 750.
Definition hold_cooldown_sec : Z := 1500.
Definition CHORD_TIMEOUT : Z := 1000.
Definition RESYNC_SAMPLE_MS : Z := 30.
Definition RESYNC_COOLDOWN_MS : Z := 120.

(** The three dicts kept as attributes of the function object by the
    one-time initialisation of the resync block. *)
Record Resync : Type := mkResync {
  last_raw : PerBtn bool;
  raw_stable_since : PerBtn Z;
  last_synth_time : PerBtn Z
}.

(** The variables of [input_monitor] that live across loop iterations,
    with the two globals it writes and the resync attributes ([None] until
    [_resync_init] is set). *)
Record Monitor : Type := mkMonitor {
  press_time : PerBtn (option Z);
  tap_count : PerBtn Z;
  decide_at : PerBtn (option Z);
  down : PerBtn bool;
  tap_suppress_until : PerBtn Z;
  chord_armed : bool;
  chord_pending : bool;
  chord_detect_time : option Z;
  last_chord_time : Z;
  last_hold_time : PerBtn Z;
  resync : option Resync
}.

Definition initial : Monitor :=
  mkMonitor (per None None) (per 0 0) (per None None) (per false false)
            (per 0 0) true false None 0 (per 0 0) None.

Definition set_press_time (f : PerBtn (option Z) → PerBtn (option Z)) (s : Monitor) :=
  mkMonitor (f (press_time s)) (tap_count s) (decide_at s) (down s)
    (tap_suppress_until s) (chord_armed s) (chord_pending s)
    (chord_detect_time s) (last_chord_time s) (last_hold_time s) (resync s).
Definition set_tap_count (f : PerBtn Z → PerBtn Z) (s : Monitor) :=
  mkMonitor (press_time s) (f (tap_count s)) (decide_at s) (down s)
    (tap_suppress_until s) (chord_armed s) (chord_pending s)
    (chord_detect_time s) (last_chord_time s) (last_hold_time s) (resync s).
Definition set_decide_at (f : PerBtn (option Z) → PerBtn (option Z)) (s : Monitor) :=
  mkMonitor (press_time s) (tap_count s) (f (decide_at s)) (down s)
    (tap_suppress_until s) (chord_armed s) (chord_pending s)
    (chord_detect_time s) (last_chord_time s) (last_hold_time s) (resync s).
Definition set_down (f : PerBtn bool → PerBtn bool) (s : Monitor) :=
  mkMonitor (press_time s) (tap_count s) (decide_at s) (f (down s))
    (tap_suppress_until s) (chord_armed s) (chord_pending s)
    (chord_detect_time s) (last_chord_time s) (last_hold_time s) (resync s).
Definition set_tap_suppress_until (f : PerBtn Z → PerBtn Z) (s : Monitor) :=
  mkMonitor (press_time s) (tap_count s) (decide_at s) (down s)
    (f (tap_suppress_until s)) (chord_armed s) (chord_pending s)
    (chord_detect_time s) (last_chord_time s) (last_hold_time s) (resync s).
Definition set_chord_armed (v : bool) (s : Monitor) :=
  mkMonitor (press_time s) (tap_count s) (decide_at s) (down s)
    (tap_suppress_until s) v (chord_pending s)
    (chord_detect_time s) (last_chord_time s) (last_hold_time s) (resync s).
Definition set_chord_pending (v : bool) (s : Monitor) :=
  mkMonitor (press_time s) (tap_count s) (decide_at s) (down s)
    (tap_suppress_until s) (chord_armed s) v
    (chord_detect_time s) (last_chord_time s) (last_hold_time s) (resync s).
Definition set_chord_detect_time (v : option Z) (s : Monitor) :=
  mkMonitor (press_time s) (tap_count s) (decide_at s) (down s)
    (tap_suppress_until s) (chord_armed s) (chord_pending s)
    v (last_chord_time s) (last_hold_time s) (resync s).
Definition set_last_chord_time (v : Z) (s : Monitor) :=
  mkMonitor (press_time s) (tap_count s) (decide_at s) (down s)
    (tap_suppress_until s) (chord_armed s) (chord_pending s)
    (chord_detect_time s) v (last_hold_time s) (resync s).
Definition set_last_hold_time (f : PerBtn Z → PerBtn Z) (s : Monitor) :=
  mkMonitor (press_time s) (tap_count s) (decide_at s) (down s)
    (tap_suppress_until s) (chord_armed s) (chord_pending s)
    (chord_detect_time s) (last_chord_time s) (f (last_hold_time s)) (resync s).
Definition set_resync (v : option Resync) (s : Monitor) :=
  mkMonitor (press_time s) (tap_count s) (decide_at s) (down s)
    (tap_suppress_until s) (chord_armed s) (chord_pending s)
    (chord_detect_time s) (last_chord_time s) (last_hold_time s) v.

(** What one loop iteration writes: the events it posts, in order, and the
    log lines that carry a measured pulse or announce a synthesized edge. *)
Inductive Out : Type :=
| Post (g : Gesture)
| LogRelease (b : Btn) (pulse_ms : Z)
| LogSynPress (b : Btn)
| LogSynRelease (b : Btn) (pulse_ms : Z).

(** The readings of [time.monotonic()] taken while one edge is classified,
    one per call site: chord detection, chord resolution, the start of the
    tap cooldown, [last_hold_time], [chord_recent()] and the cooldown test
    of the tap tally. *)
Record Clock : Type := mkClock {
  ck_detect : Z;
  ck_chord : Z;
  ck_suppress : Z;
  ck_hold : Z;
  ck_recent : Z;
  ck_tally : Z
}.

Definition chord_recent (s : Monitor) (now : Z) : bool :=
  now - last_chord_time s <? CHORD_TAP_SUPPRESS_WINDOW.

(** Python truth value of [chord_detect_time]: [None] and [0.0] are false. *)
Definition truthy (o : option Z) : bool :=
  match o with
  | Some v => negb (v =? 0)
  | None => false
  end.


Notation "s |> f" := (f s) (at level 45, left associativity, only parsing).

(** Running two steps in a row, their outputs concatenated. *)
Definition and_then (f g : Monitor → Monitor * list Out) (s : Monitor)
    : Monitor * list Out :=
  let r1 := f s in
  let r2 := g (fst r1) in
  (fst r2, snd r1 ++ snd r2).

(** *** Step 2 of the loop: one real edge (l.1153-1244) *)

(** A PRESS edge (l.1156-1169). *)
Definition press_edge (btn : Btn) (t : Z) (ck : Clock) (s : Monitor)
    : Monitor * list Out :=
  let s := s |> set_down (upd btn true) |> set_press_time (upd btn (Some t)) in
  let s :=
    match sel (down s) (other btn), sel (press_time s) (other btn) with
    | true, Some po =>
        let dt := Z.abs (t - po) in
        if (dt <=? CHORD_GRACE_MS) && chord_armed s then
          s |> set_chord_pending true
            |> set_chord_detect_time (Some (ck_detect ck))
            |> set_chord_armed false
        else s
    | _, _ => s
    end in
  (s, []).

(** "Re-arm chord once both are up" (l.1192-1208): a pending chord is
    resolved by the release that leaves both buttons up. *)
Definition rearm_chord (ck : Clock) (s : Monitor) : Monitor * list Out :=
  if negb (sel (down s) B1) && negb (sel (down s) B2) then
    if chord_pending s then
      (s |> set_tap_count (upd B1 0) |> set_tap_count (upd B2 0)
         |> set_decide_at (upd B1 None) |> set_decide_at (upd B2 None)
         |> set_last_chord_time (ck_chord ck)
         |> set_chord_pending false
         |> set_chord_detect_time None
         |> set_chord_armed true, [Post Chord])
    else (s |> set_chord_armed true, [])
  else (s, []).

(** The classification of a measured pulse (l.1210-1244); [t] is the
    release time the decision deadline is counted from. *)
Definition classify_pulse (btn : Btn) (t pulse_ms : Z) (ck : Clock)
    (s : Monitor) : Monitor * list Out :=
  if pulse_ms <? MIN_PULSE_MS then (s, [])
  else if HOLD_MS_BY_BTN btn <=? pulse_ms then
    let s := s |> set_tap_count (upd btn 0)
               |> set_decide_at (upd btn None)
               |> set_tap_suppress_until (upd btn (ck_suppress ck + hold_cooldown_sec))
               |> set_last_hold_time (upd btn (ck_hold ck)) in
    match btn with
    | B1 => if chord_recent s (ck_recent ck) then (s, [])
            else (s, [Post (Hold B1)])
    | B2 => (s, [Post (Hold btn)])
    end
  else
    if negb (chord_pending s) && negb (chord_recent s (ck_recent ck)) then
      if sel (tap_suppress_until s) btn <=? ck_tally ck then
        (s |> set_tap_count (upd btn (sel (tap_count s) btn + 1))
           |> set_decide_at (upd btn (Some (t + TAP_DECISION))), [])
      else (s, [])
    else (s, []).

(** A RELEASE edge (l.1171-1244). *)
Definition release_edge (btn : Btn) (t : Z) (ck : Clock) (s : Monitor)
    : Monitor * list Out :=
  match sel (press_time s) btn with
  | None =>
      (s |> set_down (upd btn false)
         |> set_press_time (upd btn None)
         |> set_decide_at (upd btn None)
         |> set_tap_count (upd btn 0), [])
  | Some p =>
      let t := if t <? p then p else t in
      let pulse_ms := t - p in
      let r := s |> set_down (upd btn false)
                 |> set_press_time (upd btn None)
                 |> and_then (rearm_chord ck)
                             (classify_pulse btn t pulse_ms ck) in
      (fst r, LogRelease btn pulse_ms :: snd r)
  end.

Definition process_edge (e : option (Btn * bool * Z)) (ck : Clock) (s : Monitor)
    : Monitor * list Out :=
  match e with
  | None => (s, [])
  | Some (btn, true, t) => press_edge btn t ck s
  | Some (btn, false, t) => release_edge btn t ck s
  end.

(** *** Step 3: deferred tap decisions (l.1114-1131 and l.1246-1256) *)

Definition decide (button : Btn) (s : Monitor) : Monitor * list Out :=
  let n := sel (tap_count s) button in
  let s := s |> set_tap_count (upd button 0) |> set_decide_at (upd button None) in
  if Btn_eqb button B1 && (5 <=? n) then (s, [Post (FiveTap B1)])
  else if Btn_eqb button B2 && (5 <=? n) then (s, [Post (FiveTap B2)])
  else if 2 <=? n then (s, [Post (Double button)])
  else if n =? 1 then (s, [Post (Tap button)])
  else (s, []).

Definition finalize_btn (now2 : Z) (b : Btn) (s : Monitor) : Monitor * list Out :=
  match sel (decide_at s) b with
  | Some d =>
      if d <=? now2 then
        if now2 - last_chord_time s <? CHORD_TAP_SUPPRESS_WINDOW then
          (s |> set_tap_count (upd b 0) |> set_decide_at (upd b None), [])
        else decide b s
      else (s, [])
  | None => (s, [])
  end.

Definition finalize (now2 : Z) : Monitor → Monitor * list Out :=
  and_then (finalize_btn now2 B1) (finalize_btn now2 B2).

(** *** Step 4: timeout of a pending chord (l.1258-1264) *)

Definition chord_timeout (now : Z) (s : Monitor) : Monitor * list Out :=
  match chord_detect_time s with
  | Some d =>
      if chord_pending s && truthy (chord_detect_time s) then
        if CHORD_TIMEOUT <? now - d then
          (s |> set_chord_pending false
             |> set_chord_detect_time None
             |> set_chord_armed true, [])
        else (s, [])
      else (s, [])
  | None => (s, [])
  end.

(** *** Step 4b: self-healing edge resync (l.1266-1371) *)

Definition set_last_synth_time (btn : Btn) (v : Z) (s : Monitor) : Monitor :=
  s |> set_resync
         (match resync s with
          | Some r => Some (mkResync (last_raw r) (raw_stable_since r)
                                     (upd btn v (last_synth_time r)))
          | None => None
          end).

(** The raw stability tracking of one button (l.1292-1295). *)
Definition track_raw (raw_now : PerBtn bool) (now_mon : Z) (btn : Btn)
    (r : Resync) : Resync :=
  if negb (eqb (sel raw_now btn) (sel (last_raw r) btn)) then
    mkResync (upd btn (sel raw_now btn) (last_raw r))
             (upd btn now_mon (raw_stable_since r))
             (last_synth_time r)
  else r.

(** [can_synthesize] (l.1297-1301). *)
Definition can_synthesize (now_mon : Z) (s : Monitor) (btn : Btn) : bool :=
  match resync s with
  | Some r =>
      let stable_ms := now_mon - sel (raw_stable_since r) btn in
      let since_last_syn_ms := now_mon - sel (last_synth_time r) btn in
      (RESYNC_SAMPLE_MS <=? stable_ms) && (RESYNC_COOLDOWN_MS <=? since_last_syn_ms)
  | None => false
  end.

(** The synthesized PRESS (l.1308-1319). *)
Definition syn_press (btn : Btn) (now_mon : Z) (s : Monitor)
    : Monitor * list Out :=
  let s := s |> set_down (upd btn true)
             |> set_press_time (upd btn (Some now_mon))
             |> set_last_synth_time btn now_mon in
  let s :=
    match sel (down s) (other btn), sel (press_time s) (other btn) with
    | true, Some po =>
        let dt := Z.abs (now_mon - po) in
        if (dt <=? CHORD_GRACE_MS) && chord_armed s then
          s |> set_chord_pending true
            |> set_chord_detect_time (Some now_mon)
            |> set_chord_armed false
        else s
    | _, _ => s
    end in
  (s, [LogSynPress btn]).

(** "Re-arm chord once both are up" in the synthesized release
    (l.1330-1340). *)
Definition syn_rearm_chord (ck : Clock) (s : Monitor) : Monitor * list Out :=
  if negb (sel (down s) B1) && negb (sel (down s) B2) then
    if chord_pending s then
      (s |> set_tap_count (upd B1 0) |> set_tap_count (upd B2 0)
         |> set_decide_at (upd B1 None) |> set_decide_at (upd B2 None)
         |> set_last_chord_time (ck_chord ck)
         |> set_chord_pending false
         |> set_chord_detect_time None
         |> set_chord_armed true, [Post Chord])
    else (s |> set_chord_armed true, [])
  else (s, []).

(** "Classify the synthesized pulse" (l.1342-1370). *)
Definition syn_classify_pulse (btn : Btn) (t_now pulse_ms : Z) (ck : Clock)
    (s : Monitor) : Monitor * list Out :=
  if pulse_ms <? MIN_PULSE_MS then (s, [])
  else if HOLD_MS_BY_BTN btn <=? pulse_ms then
    let s := s |> set_tap_count (upd btn 0)
               |> set_decide_at (upd btn None)
               |> set_tap_suppress_until (upd btn (ck_suppress ck + hold_cooldown_sec))
               |> set_last_hold_time (upd btn (ck_hold ck)) in
    match btn with
    | B1 => if chord_recent s (ck_recent ck) then (s, [])
            else (s, [Post (Hold B1)])
    | B2 => (s, [Post (Hold btn)])
    end
  else
    if negb (chord_pending s) && negb (chord_recent s (ck_recent ck)) then
      if sel (tap_suppress_until s) btn <=? ck_tally ck then
        (s |> set_tap_count (upd btn (sel (tap_count s) btn + 1))
           |> set_decide_at (upd btn (Some (t_now + TAP_DECISION))), [])
      else (s, [])
    else (s, []).

(** The synthesized RELEASE (l.1323-1371). *)
Definition syn_release (btn : Btn) (now_mon : Z) (ck : Clock) (s : Monitor)
    : Monitor * list Out :=
  let t_now := now_mon in
  let press_at := match sel (press_time s) btn with Some p => p | None => t_now end in
  let pulse_ms := Z.max 0 (t_now - press_at) in
  let r := s |> set_down (upd btn false)
             |> set_last_synth_time btn t_now
             |> and_then (syn_rearm_chord ck)
                         (syn_classify_pulse btn t_now pulse_ms ck) in
  (fst r |> set_press_time (upd btn None), LogSynRelease btn pulse_ms :: snd r).

(** The body of the second [for btn in ("B1", "B2")] loop (l.1303-1371):
    first the PRESS test, then the RELEASE test. *)
Definition resync_press (raw_now : PerBtn bool) (now_mon : Z) (btn : Btn)
    (s : Monitor) : Monitor * list Out :=
  if sel raw_now btn && negb (sel (down s) btn) && can_synthesize now_mon s btn
  then syn_press btn now_mon s else (s, []).

Definition resync_release (raw_now : PerBtn bool) (now_mon : Z) (ck : Clock)
    (btn : Btn) (s : Monitor) : Monitor * list Out :=
  if negb (sel raw_now btn) && sel (down s) btn && can_synthesize now_mon s btn
  then syn_release btn now_mon ck s else (s, []).

Definition resync_btn (raw_now : PerBtn bool) (now_mon : Z) (ck : Clock)
    (btn : Btn) : Monitor → Monitor * list Out :=
  and_then (resync_press raw_now now_mon btn)
           (resync_release raw_now now_mon ck btn).

(** *** One iteration of the [while] loop *)

(** What the iteration reads from outside: the edge taken from
    [edge_queue] (or [None] on [queue.Empty]), the raw GPIO levels and every
    clock reading. [raw_first] and [ck_first] are the reads of the one-time
    initialisation (l.1273-1275). *)
Record Tick : Type := mkTick {
  edge : option (Btn * bool * Z);
  ck_edge : Clock;
  now2 : Z;
  ck_timeout : Z;
  raw_first : PerBtn bool;
  ck_first : PerBtn Z;
  raw_now : PerBtn bool;
  now_mon : Z;
  ck_syn : PerBtn Clock
}.

Definition resync_step (i : Tick) (s : Monitor) : Monitor * list Out :=
  let r := match resync s with
           | Some r => r
           | None => mkResync (raw_first i) (ck_first i) (per 0 0)
           end in
  let r := r |> track_raw (raw_now i) (now_mon i) B1
             |> track_raw (raw_now i) (now_mon i) B2 in
  s |> set_resync (Some r)
    |> and_then (resync_btn (raw_now i) (now_mon i) (sel (ck_syn i) B1) B1)
                (resync_btn (raw_now i) (now_mon i) (sel (ck_syn i) B2) B2).

Definition loop_body (i : Tick) : Monitor → Monitor * list Out :=
  and_then (process_edge (edge i) (ck_edge i))
 (and_then (finalize (now2 i))
 (and_then (chord_timeout (ck_timeout i))
           (resync_step i))).

Fixpoint run (ticks : list Tick) (s : Monitor) : Monitor * list Out :=
  match ticks with
  | [] => (s, [])
  | i :: rest => and_then (loop_body i) (run rest) s
  end.

(** The events put on [event_queue], and the pulses measured. *)
Definition posted (o : list Out) : list Gesture :=
  omap (λ x, match x with Post g => Some g | _ => None end) o.

Definition pulses (o : list Out) : list Z :=
  omap (λ x, match x with
             | LogRelease _ d | LogSynRelease _ d => Some d
             | _ => None
             end) o.

Definition syn_edges (o : list Out) : list (Btn * bool) :=
  omap (λ x, match x with
             | LogSynPress b => Some (b, true)
             | LogSynRelease b _ => Some (b, false)
             | _ => None
             end) o.

Definition is_chord (g : Gesture) : bool :=
  match g with Chord => true | _ => false end.
Definition is_hold (g : Gesture) : bool :=
  match g with Hold _ => true | _ => false end.
Definition is_tap_family (g : Gesture) : bool :=
  match g with Tap _ | Double _ | FiveTap _ => true | _ => false end.

(** Steps 2 to 4 of an iteration, the resync block left out. *)
Definition classify (i : Tick) : Monitor → Monitor * list Out :=
  and_then (process_edge (edge i) (ck_edge i))
 (and_then (finalize (now2 i))
           (chord_timeout (ck_timeout i))).

(** An iteration that finds [edge_queue] empty. *)
Definition idle (i : Tick) : Prop := edge i = None.

(** Whether the deadline [dl] is still ahead at the reading [now2] of the
    decision step. *)
Definition not_due (dl : option Z) (now2 : Z) : bool :=
  match dl with
  | Some d => now2 <? d
  | None => true
  end.







(** No tap is in flight: both tallies are zero and no decision is due. *)
Definition calm (s : Monitor) : Prop :=
  tap_count s = per 0 0 ∧ decide_at s = per None None.

(** A step that, fed only sub-[MIN_PULSE_MS] pulses, keeps a calm monitor
    calm and posts nothing but chords. *)
Definition blip_proof (f : Monitor → Monitor * list Out) : Prop :=
  ∀ s, calm s →
       Forall (λ d, d < MIN_PULSE_MS) (pulses (snd (f s))) →
       calm (fst (f s)) ∧ Forall (λ g, g = Chord) (posted (snd (f s))).

(** *** Concrete runs *)

(** A clock that reads [t] at every call site of one phase. *)
Definition at_time (t : Z) : Clock := mkClock t t t t t t.

(** An iteration taken at time [now]: the edge [e] if any, the raw levels
    [r1] and [r2], every reading equal to [now]. *)
Definition tick_at (now : Z) (e : option (Btn * bool * Z)) (r1 r2 : bool) : Tick :=
  mkTick e (at_time now) now now (per r1 r2) (per now now) (per r1 r2) now
         (per (at_time now) (at_time now)).

(** Two sub-20ms blips, one on each button, that overlap. *)
Definition overlapping_blips : list Tick :=
  [ tick_at 1000 (Some (B1, true, 1000)) true false;
    tick_at 1005 (Some (B2, true, 1005)) true true;
    tick_at 1010 (Some (B1, false, 1010)) false true;
    tick_at 1015 (Some (B2, false, 1015)) false false ].

(** Button 1 held for 900ms while button 2 is pressed and let go. *)
Definition long_press_in_chord : list Tick :=
  [ tick_at 1000 (Some (B1, true, 1000)) true false;
    tick_at 1100 (Some (B2, true, 1100)) true true;
    tick_at 1500 (Some (B2, false, 1500)) true false;
    tick_at 1900 (Some (B1, false, 1900)) false false ].

(** The chord scenario of the specification, shifted by one second: button
    1 pressed at 0ms, button 2 at 50ms, both released at 300ms, with one
    idle iteration while both are down. *)
Definition chord_press_1 : Tick := tick_at 1000 (Some (B1, true, 1000)) true false.
Definition chord_press_2 : Tick := tick_at 1050 (Some (B2, true, 1050)) true true.


(** Button 1 pressed at 1000ms and still down. *)
Definition b1_down : Monitor :=
  fst (run [tick_at 1000 (Some (B1, true, 1000)) true false] initial).

(** Button 1 is down and stays down at the pin; a release edge of a bounce
    the sampling never saw is taken from the queue 10ms after an iteration
    in which belief and raw level agreed. *)
Definition bounce_while_held : list Tick :=
  [ tick_at 1000 (Some (B1, true, 1000)) true false;
    tick_at 1500 None true false ].
Definition bounce_release : Tick :=
  tick_at 1510 (Some (B1, false, 1505)) true false.

End Classifier.

(** ** Process-wide state shared by the dispatcher and the states

    The states are embedded as the hardware build runs them ([SIM] false),
    one handler call at a time: while a handler runs, no other thread
    writes the interrupt flag. *)

Import Classifier.

Inductive StateClass : Type :=
| BootState | IdleState | SingState | QuipState
| DiceState | StoryState | SleepState | ShutdownState.

(** Effects on the outside world, in the order they happen. *)
Inductive Hw : Type :=
| Backlight (on : bool)
| DisplayInit
| ShowFrame (sheet : string) (col row : Z)
| PlayAudio (file : string) (interruptable : bool).

Record World : Type := mkWorld {
  interrupt_requested : bool;
  event_queue : list Gesture;
  next_state : option StateClass;
  hw : list Hw
}.

Definition set_interrupt (v : bool) (w : World) : World :=
  mkWorld v (event_queue w) (next_state w) (hw w).
Definition set_event_queue (q : list Gesture) (w : World) : World :=
  mkWorld (interrupt_requested w) q (next_state w) (hw w).
Definition set_next_state (n : option StateClass) (w : World) : World :=
  mkWorld (interrupt_requested w) (event_queue w) n (hw w).
Definition emit_hw (l : list Hw) (w : World) : World :=
  mkWorld (interrupt_requested w) (event_queue w) (next_state w) (hw w ++ l).

(** [SpriteAnimator.play_column] with [loop=False], as every call of the
    source has it. With the flag down the frames [start], [start+1], ... are
    shown until the index reaches [end] (the first one always is); with the
    flag up none is; [interruptable] makes no difference as long as the
    flag keeps its value during the call. [hold_last] shows the frame before
    the final index once more. The final index is returned. *)
Definition play_column (sheet : string) (col start end_ : Z)
    (hold_last : bool) (w : World) : World * Z :=
  let n := if interrupt_requested w then 0 else Z.max 1 (end_ - start) in
  let index := start + n in
  let w := emit_hw ((λ k, ShowFrame sheet col (start + Z.of_nat k))
                      <$> seq 0 (Z.to_nat n)) w in
  let w := if hold_last && (0 <? index)
           then emit_hw [ShowFrame sheet col (index - 1)] w else w in
  (w, index).

(** *** [SleepState] *)

Module SleepState.

Record t : Type := mk {
  wake_taps : Z;
  last_tap_time : Z;
  sleep_tap_window : Z;
  settle_until : Z;
  wake_requested : bool
}.

(** [__init__], [now] being the clock reading of l.585. *)
Definition init (now : Z) : t := mk 0 0 600 (now + 500) false.

Definition _wake (self : t) (w : World) : t * World :=
  if wake_requested self then (self, w)
  else
    let self := mk (wake_taps self) (last_tap_time self)
                   (sleep_tap_window self) (settle_until self) true in
    let w := w |> emit_hw [Backlight true; DisplayInit]
               |> set_interrupt true
               |> set_next_state (Some BootState) in
    (self, w).

(** [handle_event]; [ck] is the reading compared with [settle_until]
    (l.637) and [now] the one taken for a tap (l.647). *)
Definition handle_event (evt : Gesture) (ck now : Z) (self : t) (w : World)
    : t * World :=
  if ck <? settle_until self then (self, w)
  else
    match evt with
    | FiveTap B1 => _wake self w
    | Tap B1 =>
        let taps := if now - last_tap_time self <? sleep_tap_window self
                    then wake_taps self + 1 else 1 in
        let self := mk taps now (sleep_tap_window self) (settle_until self)
                       (wake_requested self) in
        if 5 <=? wake_taps self then _wake self w else (self, w)
    | _ => (self, w)
    end.

(** A run of [B1_TAP] events, each delivered at the given time. *)
Fixpoint taps (times : list Z) (self : t) (w : World) : t * World :=
  match times with
  | [] => (self, w)
  | now :: rest =>
      let '(self, w) := handle_event (Tap B1) now now self w in
      taps rest self w
  end.



End SleepState.

(** *** [DiceState] *)

Module DiceState.

Inductive Mode : Type := selection | result.

Definition MAX_VALS : list Z := [20; 12; 10; 8; 6; 4; 100].
Definition dice_names : list string :=
  ["d20"; "d12"; "d10"; "d8"; "d6"; "d4"; "d100"]%string.

Record t : Type := mk {
  selected_index : nat;
  mode : Mode;
  last_idle_log : Z;
  last_result : option Z;
  settle_until : Z
}.

Definition init (now : Z) : t := mk 0 selection 0 None (now + 250).

Definition set_mode (m : Mode) (self : t) : t :=
  mk (selected_index self) m (last_idle_log self) (last_result self)
     (settle_until self).
Definition set_selected_index (i : nat) (self : t) : t :=
  mk i (mode self) (last_idle_log self) (last_result self) (settle_until self).
Definition set_last_result (r : option Z) (self : t) : t :=
  mk (selected_index self) (mode self) (last_idle_log self) r
     (settle_until self).

Definition _show_selection (self : t) (w : World) : World :=
  fst (play_column "dice.bmp" (Z.of_nat (selected_index self)) 0 4 true w).

Definition _play_result_strip (start_frame : Z) (self : t) (w : World) : World :=
  match last_result self with
  | None => w
  | Some r =>
      let col := r - 1 in
      let start := if start_frame <=? 0 then 0
                   else if start_frame <=? 3 then 3 else start_frame in
      fst (play_column "results.bmp" col start 7 false w)
  end.

(** [_roll_current]; [rnd] is the value [random.randint] returns. *)
Definition _roll_current (rnd : Z) (self : t) (w : World) : t * World :=
  let w := emit_hw [PlayAudio "fx/roll.wav" true] w in
  let w := fst (play_column "dice.bmp" (Z.of_nat (selected_index self)) 4 23 false w) in
  if interrupt_requested w then
    let self := set_mode selection self in
    (self, _show_selection self w)
  else
    let self := set_last_result (Some rnd) self in
    let w := fst (play_column "results.bmp" (rnd - 1) 0 4 true w) in
    let self := set_mode result self in
    let w :=
      if rnd =? 1 then emit_hw [PlayAudio "fx/guardiandown.wav" true] w
      else if bool_decide (MAX_VALS !! selected_index self = Some rnd)
           then emit_hw [PlayAudio "fx/crit.wav" true] w
           else w in
    (self, w).

Definition handle_event (evt : Gesture) (ck rnd : Z) (self : t) (w : World)
    : t * World :=
  if ck <? settle_until self then (self, w)
  else
    match evt with
    | Double B1 =>
        (self, if interrupt_requested w then set_interrupt false w else w)
    | Double B2 =>
        let w := if interrupt_requested w then set_interrupt false w else w in
        let self := self |> set_selected_index 0%nat |> set_mode selection in
        (self, _show_selection self w)
    | _ =>
        match mode self, evt with
        | selection, Tap B1 => _roll_current rnd self w
        | selection, Tap B2 =>
            let w := emit_hw ((λ i, ShowFrame "dice.bmp"
                                      (Z.of_nat (selected_index self)) i)
                                <$> [3; 2; 1; 0]) w in
            let self := set_selected_index
                          ((selected_index self + 1) `mod` length dice_names)%nat
                          self in
            (self, _show_selection self w)
        | result, Tap B1 =>
            _roll_current rnd self (_play_result_strip 3 self w)
        | result, Tap B2 =>
            let w := _play_result_strip 3 self w in
            let self := set_mode selection self in
            (self, _show_selection self w)
        | _, _ => (self, w)
        end
    end.

(** Dice showing a d8 result when a button-1 double arrives. *)
Definition showing_d8_result : t := mk 3 result 0 (Some 5) 1000.

End DiceState.

(** *** [StateManager] *)

Module StateManager.

Inductive StateObj : Type :=
| Boot | Idle | Sing | Quip | Story
| Dice (d : DiceState.t)
| Sleep (s : SleepState.t)
| Shutdown (shutdown_requested : bool).

(** [state_cls()]: the constructors that take state read the clock once. *)
Definition construct (state_cls : StateClass) (now : Z) : StateObj :=
  match state_cls with
  | BootState => Boot
  | IdleState => Idle
  | SingState => Sing
  | QuipState => Quip
  | StoryState => Story
  | DiceState => Dice (DiceState.init now)
  | SleepState => Sleep (SleepState.init now)
  | ShutdownState => Shutdown false
  end.

(** A worker thread: whose [run] it executes, whether it is still alive
    and whether it is the thread calling [set_state]. *)
Record Thread : Type := mkThread {
  target : StateClass;
  is_alive : bool;
  is_current : bool
}.

Record t : Type := mk {
  state : option StateObj;
  thread : option Thread;
  _inline_running : bool
}.

(** The [try: while True: event_queue.get_nowait()] loop. *)
Fixpoint drain (q : list Gesture) : list Gesture :=
  match q with
  | [] => []
  | _ :: q' => drain q'
  end.

(** Whether the [run] of a state comes to an end once [interrupt_requested]
    is set, [shutting_down] being clear as it is until the program exits:
    [SleepState.run] waits for [wake_requested] (l.599) and
    [ShutdownState.run] for [shutting_down] (l.701), and neither looks at
    the interrupt flag; Idle and Dice loop on the flag (l.469, l.889); Boot,
    Sing, Quip and Story end with their clip. *)
Definition run_ends (o : StateObj) : bool :=
  match o with
  | Sleep s => SleepState.wake_requested s
  | Shutdown _ => false
  | _ => true
  end.

(** The worker [set_state] waits for (l.407-409), if any. *)
Definition awaited (self : t) : option Thread :=
  match thread self with
  | Some th => if is_alive th && negb (is_current th) then Some th else None
  | None => None
  end.

(** [set_state] would wait for ever: the worker it joins runs the [run] of
    the active state, and that does not end. *)
Definition stuck (self : t) : bool :=
  match awaited self, state self with
  | Some _, Some o => negb (run_ends o)
  | _, _ => false
  end.

Section SetState.

(** Simulator build or hardware build. *)
Variable SIM : bool.

(** Whatever a superseded worker whose [run] ends still does to the shared
    state between the moment [join] is called and the moment it returns. *)
Variable join : Thread → World → World.

(** [set_state] up to, and without, the start of the new worker; [None]
    when [thread.join()] never returns. *)
Definition before_start (state_cls : StateClass) (now : Z) (self : t)
    (w : World) : option (t * World) :=
  let w := set_interrupt true w in
  if stuck self then None
  else
    let w := match awaited self with
             | Some th => join th w
             | None => w
             end in
    let w := set_interrupt false w in
    let w := set_event_queue (drain (event_queue w)) w in
    Some (mk (Some (construct state_cls now)) (thread self)
             (_inline_running self), w).

Definition set_state (state_cls : StateClass) (now : Z) (self : t)
    (w : World) : option (t * World) :=
  match before_start state_cls now self w with
  | Some (self, w) =>
      if SIM then Some (mk (state self) None (_inline_running self), w)
      else Some (mk (state self) (Some (mkThread state_cls true false))
                    (_inline_running self), w)
  | None => None
  end.

End SetState.

End StateManager.

(** ** Playback: [play_audio] and [hw.audio.play_wav] *)

Module Audio.

(** Outcome of a [subprocess.Popen] call. *)
Inductive Spawn : Type := Spawned | FileNotFound | OtherError.

(** What a call of [play_audio] meets: whether the file is there, how the
    player process can be spawned, how long the clip plays, and when, counted
    from the call, another thread sets [interrupt_requested] if it ever
    does. Nobody else stops the player meanwhile. *)
Record Env : Type := mkEnv {
  path_exists : bool;
  SIM : bool;
  popen : Spawn;
  popen_fallback : Spawn;
  clip_ms : Z;
  interrupt_at : option Z;
  pygame_ok : bool
}.

Definition interrupt_is_set (e : Env) (now : Z) : bool :=
  match interrupt_at e with
  | Some t => t <=? now
  | None => false
  end.

(** How a call ends: the time at which it gives control back, and whether
    it stopped the stream itself. *)
Record Return : Type := mkReturn { returned_at : Z; stream_stopped : bool }.

Inductive WavResult : Type :=
| Returned (elapsed : Z)
| Raised (elapsed : Z).

(** [hw.audio.play_wav]: spawn the player, with one retry on
    [FileNotFoundError], and wait for it; every exception is caught
    inside. *)
Definition play_wav (e : Env) : WavResult :=
  match popen e with
  | Spawned => Returned (clip_ms e)
  | FileNotFound =>
      match popen_fallback e with
      | Spawned => Returned (clip_ms e)
      | _ => Returned 0
      end
  | OtherError => Returned 0
  end.

(** The polling loop of the pygame fallback (l.377-383), one poll each
    50ms. *)
Fixpoint pygame_wait (polls : nat) (now : Z) (e : Env) (interruptable : bool)
    : Return :=
  match polls with
  | O => mkReturn now false
  | S polls' =>
      if now <? clip_ms e then
        if interruptable && interrupt_is_set e now then mkReturn now true
        else pygame_wait polls' (now + 50) e interruptable
      else mkReturn now false
  end.

Definition play_audio (e : Env) (interruptable : bool) : Return :=
  if negb (path_exists e) then mkReturn 0 false
  else
    match play_wav e with
    | Returned d => mkReturn d false
    | Raised d =>
        if SIM e then mkReturn d false
        else if pygame_ok e then
          pygame_wait (S (Z.to_nat (clip_ms e / 50 + 1))) d e interruptable
        else mkReturn d false
    end.

(** A ten-second song on the hardware build, the interrupt flag raised one
    second after playback begins. *)
Definition interrupted_song : Env :=
  mkEnv true false Spawned Spawned 10000 (Some 1000) true.

End Audio.

(** ** Consistency of the monitor's variables *)

(** A button is believed down exactly when its press time is recorded. *)
Definition press_recorded (s : Monitor) (b : Btn) : Prop :=
  match sel (press_time s) b with
  | Some _ => sel (down s) b = true
  | None => sel (down s) b = false
  end.

(** A tally is at least one exactly when its decision deadline is set, and
    zero otherwise. *)
Definition tally_has_deadline (s : Monitor) (b : Btn) : Prop :=
  match sel (decide_at s) b with
  | Some _ => 1 ≤ sel (tap_count s) b
  | None => sel (tap_count s) b = 0
  end.

(** While a chord is pending, detection is disarmed and the detection time
    is recorded. *)
Definition chord_disarmed (s : Monitor) : Prop :=
  chord_pending s = true →
  chord_armed s = false ∧ chord_detect_time s ≠ None.

(** A pending chord has a button still down. *)
Definition chord_held (s : Monitor) : Prop :=
  chord_pending s = true →
  sel (down s) B1 = true ∨ sel (down s) B2 = true.

Definition tracks_ok (s : Monitor) : Prop :=
  press_recorded s B1 ∧ press_recorded s B2 ∧
  tally_has_deadline s B1 ∧ tally_has_deadline s B2 ∧
  chord_disarmed s.

Definition well_formed (s : Monitor) : Prop :=
  tracks_ok s ∧ chord_held s.

(** A step that keeps the variables consistent. *)
Definition keeps_well_formed (f : Monitor → Monitor * list Out) : Prop :=
  ∀ s, well_formed s → well_formed (fst (f s)).

(** ** Tap decisions *)

(** The gesture a tally of [n] taps stands for. *)
Definition gesture_of (b : Btn) (n : Z) : Gesture :=
  if 5 <=? n then FiveTap b else if 2 <=? n then Double b else Tap b.

Definition is_chord_or_hold (g : Gesture) : bool := is_chord g || is_hold g.

(** *** Tapping one button

    The course of a tap sequence on button [b] while the other button stays
    up and no chord is involved: [Up k dl] when [b] is up with [k] taps
    tallied and the deadline [dl]; [Down k dl p] when it is down since
    [p]. *)
Inductive Phase : Type :=
| Up (k : Z) (dl : option Z)
| Down (k : Z) (dl : option Z) (p : Z).

(** The iterations such a sequence is made of, [L] being the time of the
    last chord and [S] the end of the tap cooldown of [b]: an idle iteration
    or a press of [b] before the deadline; a release of [b] after a pulse of
    at least [MIN_PULSE_MS] and less than the hold threshold, outside the
    750ms after the last chord, past the cooldown, the decision step of the
    same iteration coming before the new deadline. *)
Definition tap_next (b : Btn) (L S : Z) (ph : Phase) (i : Tick)
    : option Phase :=
  match ph, edge i with
  | Up k dl, None | Down k dl _, None =>
      if not_due dl (now2 i) then Some ph else None
  | Up k dl, Some (b', true, p) =>
      if Btn_eqb b' b && not_due dl (now2 i) then Some (Down k dl p) else None
  | Down k dl p, Some (b', false, r) =>
      if Btn_eqb b' b
         && (MIN_PULSE_MS <=? r - p) && (r - p <? HOLD_MS_BY_BTN b)
         && (CHORD_TAP_SUPPRESS_WINDOW <=? ck_recent (ck_edge i) - L)
         && (S <=? ck_tally (ck_edge i))
         && (now2 i <? r + TAP_DECISION)
      then Some (Up (k + 1) (Some (r + TAP_DECISION))) else None
  | _, _ => None
  end.

Fixpoint tap_track (b : Btn) (L S : Z) (ph : Phase) (ticks : list Tick)
    : option Phase :=
  match ticks with
  | [] => Some ph
  | i :: rest =>
      match tap_next b L S ph i with
      | Some ph' => tap_track b L S ph' rest
      | None => None
      end
  end.

(** The monitor is in phase [ph] of a tap sequence on [b]. *)
Definition in_phase (b : Btn) (L S : Z) (ph : Phase) (s : Monitor) : Prop :=
  sel (down s) (other b) = false ∧ chord_pending s = false ∧
  sel (decide_at s) (other b) = None ∧
  last_chord_time s = L ∧ sel (tap_suppress_until s) b = S ∧
  match ph with
  | Up k dl =>
      sel (down s) b = false ∧
      sel (tap_count s) b = k ∧ sel (decide_at s) b = dl
  | Down k dl p =>
      sel (press_time s) b = Some p ∧
      sel (tap_count s) b = k ∧ sel (decide_at s) b = dl
  end.

(** The deadline in force in a phase. *)
Definition deadline (ph : Phase) : option Z :=
  match ph with Up _ dl | Down _ dl _ => dl end.

(** A tally of zero has no deadline, any other is at least one. *)
Definition phase_ok (ph : Phase) : Prop :=
  match ph with
  | Up k dl | Down k dl _ =>
      match dl with Some _ => 1 ≤ k | None => k = 0 end
  end.

Definition is_release (i : Tick) : bool :=
  match edge i with Some (_, false, _) => true | _ => false end.

(** Five taps on button 1, 50ms long and 100ms apart, the last release at
    1450ms, and the iteration at 2150ms in which the decision falls. *)
Definition tap_at (t : Z) : list Tick :=
  [ tick_at t (Some (B1, true, t)) true false;
    tick_at (t + 50) (Some (B1, false, t + 50)) false false ].

Definition five_taps : list Tick :=
  tap_at 1000 ++ tap_at 1100 ++ tap_at 1200 ++ tap_at 1300 ++ tap_at 1400.

Definition decision_tick : Tick := tick_at 2150 None false false.

(** The pulses measured on button [b], real and synthesized. *)
Definition pulses_of (b : Btn) (o : list Out) : list Z :=
  omap (λ x, match x with
             | LogRelease b' d | LogSynRelease b' d =>
                 if Btn_eqb b' b then Some d else None
             | _ => None
             end) o.

(** Every Hold posted in [o] comes with a pulse of that button that
    reaches its threshold. *)
Definition hold_backed (o : list Out) : Prop :=
  ∀ b, Hold b ∈ posted o → ∃ d, d ∈ pulses_of b o ∧ HOLD_MS_BY_BTN b ≤ d.

(** Button 1 held for 900ms. *)
Definition long_press : list Tick :=
  [ tick_at 1000 (Some (B1, true, 1000)) true false;
    tick_at 1900 (Some (B1, false, 1900)) false false ].

(** ** The history kept by the shuffler *)

Module ShufflerHistory.
Import Shuffler.

Section Pool.
Context {K : Type} `{Countable K}.

(** A call of one of the two public methods; an exception it raises is
    caught by the caller, the instance staying as the method left it. *)
Inductive call : Type :=
| Observe (x : K)
| Next (u : Q).

Definition do_call (s : t K) (c : call) : t K :=
  match c with
  | Observe x => fst (observe x s)
  | Next u => fst (next u s)
  end.

Definition calls (cs : list call) (s : t K) : t K := foldl do_call s cs.

(** The play tallies of all items, added up. *)
Definition total_plays (s : t K) : Z :=
  map_fold (λ _ p acc, p + acc) 0 (_plays s).

Definition history_ok (s : t K) : Prop :=
  keyed s ∧ items s ≠ [] ∧
  Z.of_nat (length (_recent s)) ≤ recent_window s ∧
  (∀ k, k ∈ _recent s → k ∈ items s) ∧
  (∀ k p, _plays s !! k = Some p → 0 ≤ p) ∧
  (∀ k i, _last_pick_idx s !! k = Some i → i < _pick_counter s) ∧
  total_plays s = _pick_counter s.

End Pool.
End ShufflerHistory.

(** ** The dispatcher: [IdleState.handle_event], [dispatch_events] and the
    state switch of the main loop

    The dispatcher runs on the main thread. It is embedded as the hardware
    build runs it ([SIM] false; in the simulator [play_column] calls
    [dispatch_events] again from inside a handler), one event at a time:
    while an event is handled nothing is posted to [event_queue] and
    [last_hold_time] is not written. *)

Module Dispatcher.
Import StateManager.

Definition VOLUME_HIGH : Z := 255.
Definition VOLUME_LOW : Z := 100.
Definition HOLD_TAP_IGNORE_SEC : Z := 2000.

(** The manager, the shared state, and the globals the dispatcher reads
    and writes; [pcm_volume] lists the values passed to [set_pcm_volume],
    oldest first. *)
Record t : Type := mk {
  manager : StateManager.t;
  world : World;
  current_volume : Z;
  pcm_volume : list Z;
  last_hold_time : PerBtn Z
}.

Definition set_manager (m : StateManager.t) (st : t) : t :=
  mk m (world st) (current_volume st) (pcm_volume st) (last_hold_time st).
Definition set_world (w : World) (st : t) : t :=
  mk (manager st) w (current_volume st) (pcm_volume st) (last_hold_time st).
Definition set_state_obj (o : StateObj) (st : t) : t :=
  set_manager (StateManager.mk (Some o) (thread (manager st))
                               (_inline_running (manager st))) st.

(** What the handling of one event reads from outside: the clock at
    l.1430, the clock read by the constructor of the state entered, the two
    clock readings of a state's handler and the value [random.randint]
    returns to it. *)
Record Reads : Type := mkReads {
  ck_since_hold : Z;
  ck_ctor : Z;
  ck_settle : Z;
  ck_tap : Z;
  rnd : Z
}.

Section Dispatch.

(** What a superseded worker does while it is joined, as in
    [StateManager.set_state]. *)
Variable join : Thread → World → World.

(** [manager.set_state(state_cls)]; [None] when it never returns. *)
Definition set_state (state_cls : StateClass) (now : Z) (st : t) : option t :=
  match StateManager.set_state false join state_cls now (manager st)
                               (world st) with
  | Some r => Some (st |> set_manager (fst r) |> set_world (snd r))
  | None => None
  end.

(** [play_audio(file, interruptable=False)] *)
Definition play_audio (file : string) (st : t) : t :=
  set_world (emit_hw [PlayAudio file false] (world st)) st.

(** [interrupt_requested.set()] *)
Definition raise_interrupt (st : t) : t :=
  set_world (set_interrupt true (world st)) st.

(** [state.handle_event(evt)] for the active state (l.1459-1462); the
    states other than Idle, Sleep and Dice inherit the empty handler of
    [State], and [IdleState.handle_event] is l.474-480. *)
Definition handle_event (r : Reads) (evt : Gesture) (st : t) : option t :=
  match state (manager st) with
  | Some Idle =>
      match evt with
      | Tap B1 => set_state SingState (ck_ctor r) st
      | Tap B2 => set_state QuipState (ck_ctor r) st
      | _ => Some st
      end
  | Some (Sleep s) =>
      let x := SleepState.handle_event evt (ck_settle r) (ck_tap r) s (world st) in
      Some (st |> set_state_obj (Sleep (fst x)) |> set_world (snd x))
  | Some (Dice d) =>
      let x := DiceState.handle_event evt (ck_settle r) (rnd r) d (world st) in
      Some (st |> set_state_obj (Dice (fst x)) |> set_world (snd x))
  | _ => Some st
  end.

Definition is_sleep (st : t) : bool :=
  match state (manager st) with Some (Sleep _) => true | _ => false end.
Definition is_dice (st : t) : bool :=
  match state (manager st) with Some (Dice _) => true | _ => false end.

(** The body of the [while] loop for the event [evt] just taken from the
    queue (l.1382-1464); [None] when a [set_state] in it never returns. *)
Definition dispatch_one (r : Reads) (evt : Gesture) (st : t) : option t :=
  match evt with
  | Chord =>
      if is_sleep st then Some st
      else if is_dice st then set_state IdleState (ck_ctor r) st
      else set_state DiceState (ck_ctor r) st
  | Hold B1 =>
      let v := if current_volume st =? VOLUME_HIGH then VOLUME_LOW
               else VOLUME_HIGH in
      Some (mk (manager st) (world st) v (pcm_volume st ++ [v])
               (last_hold_time st)
              |> play_audio "fx/beep.wav")
  | Hold B2 => set_state StoryState (ck_ctor r) st
  | FiveTap B1 =>
      if negb (is_sleep st) then
        st |> raise_interrupt |> play_audio "fx/revive.wav"
           |> set_state SleepState (ck_ctor r)
      else handle_event r evt st
  | FiveTap B2 =>
      let since_hold := ck_since_hold r - sel (last_hold_time st) B2 in
      if since_hold <? HOLD_TAP_IGNORE_SEC then Some st
      else
        st |> raise_interrupt |> play_audio "fx/guardiandown.wav"
           |> set_state ShutdownState (ck_ctor r)
  | Double _ =>
      (if is_dice st then st else raise_interrupt st) |> handle_event r evt
  | Tap _ => handle_event r evt st
  end.

(** [dispatch_events]: events are taken from the queue until it is found
    empty; the [n]-th one is handled with the readings [reads n]. The
    queue never grows while the loop runs, so its length at the start bounds
    the number of turns. *)
Variable reads : nat → Reads.

Fixpoint dispatch_loop (turns n : nat) (st : t) : option t :=
  match turns with
  | O => Some st
  | S turns' =>
      match event_queue (world st) with
      | [] => Some st
      | evt :: rest =>
          match st |> set_world (set_event_queue rest (world st))
                   |> dispatch_one (reads n) evt with
          | Some st' => dispatch_loop turns' (S n) st'
          | None => None
          end
      end
  end.

Definition dispatch_events (st : t) : option t :=
  dispatch_loop (length (event_queue (world st))) 0 st.

(** "Consume any pending state switch first" (l.1510-1518). *)
Definition pending_switch (now : Z) (st : t) : option t :=
  match next_state (world st) with
  | Some cls =>
      match set_state cls now st with
      | Some st =>
          let w := world st |> set_next_state None in
          Some (set_world (set_event_queue (drain (event_queue w)) w) st)
      | None => None
      end
  | None => Some st
  end.

(** The events after which the dispatcher enters another state. *)
Definition switches (r : Reads) (evt : Gesture) (st : t) : bool :=
  match evt with
  | Chord | FiveTap B1 => negb (is_sleep st)
  | Hold B2 => true
  | FiveTap B2 =>
      HOLD_TAP_IGNORE_SEC <=? ck_since_hold r - sel (last_hold_time st) B2
  | Tap _ => match state (manager st) with Some Idle => true | _ => false end
  | _ => false
  end.

(** How a call that enters the state [state_cls] from [st] ends: it comes
    back, the worker of [st] joined if there was one, with a fresh
    instance of the class, the queue empty and the interrupt flag down; or
    it never comes back, the worker of [st] being one that does not end. *)
Definition enters (state_cls : StateClass) (now : Z) (st : t)
    (r : option t) : Prop :=
  match r with
  | Some st' =>
      stuck (manager st) = false ∧
      state (manager st') = Some (construct state_cls now) ∧
      event_queue (world st') = [] ∧
      interrupt_requested (world st') = false
  | None => stuck (manager st) = true
  end.

(** What one step of the loop leaves: an empty queue, or the queue as it
    was and a worker that can be joined if it could before; it does not
    come back only when the worker cannot be joined. *)
Definition step_ok (st : t) (r : option t) : Prop :=
  match r with
  | Some st' =>
      event_queue (world st') = [] ∨
      event_queue (world st') = event_queue (world st) ∧
      (stuck (manager st') = true → stuck (manager st) = true)
  | None => stuck (manager st) = true
  end.

End Dispatch.

(** Asleep since 1000ms, with one event queued. *)
Definition asleep (q : list Gesture) : t :=
  mk (StateManager.mk (Some (Sleep (SleepState.init 1000)))
                      (Some (mkThread SleepState true false)) false)
     (mkWorld false q None [])
     VOLUME_HIGH [] (per 0 0).

Definition idling (q : list Gesture) : t :=
  mk (StateManager.mk (Some Idle) (Some (mkThread IdleState true false)) false)
     (mkWorld false q None [])
     VOLUME_HIGH [] (per 0 0).

Definition reads_at (now : Z) : Reads := mkReads now now now now 1.

End Dispatcher.

(** ** Runs of events in Dice and in Sleep *)

(** The events handed to [DiceState.handle_event] one after the other, each
    with the clock reading of its settle test and the value a roll would
    draw. *)
Fixpoint dice_events (evs : list (Gesture * Z * Z)) (self : DiceState.t)
    (w : World) : DiceState.t * World :=
  match evs with
  | [] => (self, w)
  | (evt, ck, rnd) :: rest =>
      let r := DiceState.handle_event evt ck rnd self w in
      dice_events rest (fst r) (snd r)
  end.

(** What [_roll_current] and [_play_result_strip] rely on. *)
Definition dice_ok (self : DiceState.t) : Prop :=
  (DiceState.selected_index self < length DiceState.dice_names)%nat ∧
  (DiceState.mode self = DiceState.result →
   is_Some (DiceState.last_result self)).

(** Every tap comes [window] or more after the one before it. *)
Fixpoint spaced (window : Z) (prev : Z) (times : list Z) : Prop :=
  match times with
  | [] => True
  | now :: rest => window ≤ now - prev ∧ spaced window now rest
  end.

(** * Properties *)

(** ** The shuffler *)

Section ShufflerFacts.
Import Shuffler.
Context {K : Type} `{Countable K}.

Lemma fresh_keyed (its : list K) window ub ab rp mw :
  keyed (fresh its window ub ab rp mw).
Proof.
  split; intros k; cbn; rewrite dom_list_to_map_L, <- list_fmap_compose;
    rewrite elem_of_list_to_set, list_fmap_id; reflexivity.
Qed.


Lemma note_pick_known (s : t K) (item : K) :
  item ∈ dom (_plays s) →
  ∃ p, _plays s !! item = Some p ∧
       _note_pick item s =
         (mk (items s) (<[item := p + 1]> (_plays s))
             (<[item := _pick_counter s]> (_last_pick_idx s))
             (_pick_counter s + 1)
             (deque_append (recent_window s) (_recent s) item)
             (recent_window s) (_unheard_boost s) (_age_boost s)
             (_recent_penalty s) (_min_weight s), inr ()).
Proof.
  intros [p Hp]%elem_of_dom. exists p. split; [exact Hp|].
  unfold _note_pick, bind, get, subscript. rewrite Hp. reflexivity.
Qed.

Lemma note_pick_keyed (s s' : t K) (item : K) r :
  keyed s → _note_pick item s = (s', r) → keyed s'.
Proof.
  intros [Hp Hl] Heq. unfold _note_pick, bind, get, subscript in Heq.
  destruct (_plays s !! item) as [p|] eqn:Hlook; cbn in Heq.
  - injection Heq as <- _. split; intros k; cbn.
    + rewrite dom_insert_L, elem_of_union, elem_of_singleton, Hp.
      split; [intros [->|]; [|assumption]|auto].
      apply Hp, elem_of_dom. eauto.
    + rewrite dom_insert_L, elem_of_union, elem_of_singleton, Hl.
      split; [intros [->|]; [|assumption]|auto].
      apply Hp, elem_of_dom. eauto.
  - injection Heq as <- _. split; assumption.
Qed.

(** C10: [observe] raises [ValueError] exactly for an item outside the pool,
    and then leaves every attribute as it was; for an item of the pool it
    returns normally. *)
Theorem observe_raises_iff_unknown (s : t K) (item : K) :
  keyed s →
  (snd (observe item s) = inl ValueError ↔ item ∉ items s) ∧
  (∀ e, snd (observe item s) = inl e → e = ValueError ∧ fst (observe item s) = s).
Proof.
  intros [Hp Hl]. unfold observe, bind, get. cbn.
  destruct (bool_decide (item ∈ dom (_plays s))) eqn:Hin.
  - apply bool_decide_eq_true in Hin.
    destruct (note_pick_known s item Hin) as (p & _ & ->). cbn.
    split; [split; [discriminate|]|discriminate].
    intros Hnot. exfalso. apply Hnot, Hp, Hin.
  - apply bool_decide_eq_false in Hin. cbn.
    split; [split; [|reflexivity]|].
    + intros _ Hitem. apply Hin, Hp, Hitem.
    + intros e [= <-]. split; reflexivity.
Qed.

End ShufflerFacts.

Lemma observe_raises_iff_unknown_witness :
  (snd (Shuffler.observe "songs/nope.wav"%string Shuffler.two_song_shuffler)
     = inl Shuffler.ValueError
   ↔ "songs/nope.wav"%string ∉ Shuffler.items Shuffler.two_song_shuffler) ∧
  (∀ e, snd (Shuffler.observe "songs/nope.wav"%string Shuffler.two_song_shuffler)
          = inl e →
        e = Shuffler.ValueError ∧
        fst (Shuffler.observe "songs/nope.wav"%string Shuffler.two_song_shuffler)
          = Shuffler.two_song_shuffler).
Proof.
  apply (observe_raises_iff_unknown Shuffler.two_song_shuffler
           "songs/nope.wav"%string).
  apply fresh_keyed.
Defined.
Section ShufflerRepeat.
Import Shuffler.
Context {K : Type} `{Countable K}.

Lemma pymax_ge_l (a b : Q) : (a <= pymax a b)%Q.
Proof.
  unfold pymax. destruct (Qlt_le_dec a b) as [Hlt|Hle].
  - apply Qlt_le_weak, Hlt.
  - apply Qle_refl.
Qed.

Lemma weight_known (s : t K) (item : K) :
  keyed s → counted s → item ∈ items s →
  ∃ p last,
    _plays s !! item = Some p ∧ _last_pick_idx s !! item = Some last ∧
    _weight item s =
      (s, inr (pymax (_min_weight s)
                 (raw_weight s p (Z.max 0 (_pick_counter s - last))
                    (bool_decide (item ∈ _recent s))))).
Proof.
  intros [Hp Hl] Hc Hin.
  pose proof (proj2 (Hp item) Hin) as [p Hlp]%elem_of_dom.
  pose proof (proj2 (Hl item) Hin) as [last Hll]%elem_of_dom.
  exists p, last. split; [exact Hlp|]. split; [exact Hll|].
  unfold _weight, bind, get, subscript. rewrite Hll. cbn. rewrite Hlp.
  cbv beta iota delta [ret].
  destruct (Z.eqb_spec (1 + p) 0) as [Hz|_]; [|reflexivity].
  specialize (Hc _ _ Hlp). lia.
Qed.

Lemma weights_of_known (s : t K) (its : list K) :
  keyed s → counted s → (∀ i, i ∈ its → i ∈ items s) →
  ∃ ws, weights_of its s = (s, inr ws) ∧
        length ws = length its ∧
        Forall (λ w, (_min_weight s <= w)%Q) ws.
Proof.
  intros Hk Hc. induction its as [|i its IH]; intros Hsub.
  - exists []. repeat split; constructor.
  - destruct (weight_known s i Hk Hc) as (p & last & _ & _ & Hw).
    { apply Hsub. left. }
    destruct IH as (ws & Hws & Hlen & Hall).
    { intros j Hj. apply Hsub. right. exact Hj. }
    eexists (_ :: ws). cbn. unfold bind at 1. rewrite Hw.
    unfold bind at 1. rewrite Hws. split; [reflexivity|].
    split; [cbn; congruence|].
    constructor; [apply pymax_ge_l|exact Hall].
Qed.






End ShufflerRepeat.



(** ** The state manager *)

Section StateManagerFacts.
Import StateManager.

Lemma drain_empties (q : list Gesture) : drain q = [].
Proof. induction q as [|g q IH]; [reflexivity|exact IH]. Qed.

(** C6: a transition by [set_state] completes unless the worker it has to
    join never ends (a sleeping state that was not woken, or Shutdown, with
    a live worker). When it completes, whatever the superseded worker did
    while it was joined and in either build, the event queue is empty and
    the interrupt flag down; the flag is already down, and the queue
    already empty, at the point where the worker of the new state is
    started, and the new state is a fresh instance of the requested class. *)
Theorem set_state_clears_queue_and_flag
    (SIM : bool) (join : Thread → World → World)
    (state_cls : StateClass) (now : Z) (self : t) (w : World) :
  match set_state SIM join state_cls now self w,
        before_start join state_cls now self w with
  | Some (self', w'), Some (_, w0) =>
      stuck self = false ∧
      event_queue w' = [] ∧
      interrupt_requested w' = false ∧
      interrupt_requested w0 = false ∧
      event_queue w0 = [] ∧
      state self' = Some (construct state_cls now)
  | None, None => stuck self = true
  | _, _ => False
  end.
Proof.
  unfold set_state, before_start.
  destruct (stuck self); [reflexivity|].
  destruct SIM; cbn; rewrite drain_empties; repeat split.
Qed.

End StateManagerFacts.

(** ** Sleep *)

Section SleepFacts.
Import SleepState.




End SleepFacts.

(** ** Dice *)

Section DiceFacts.
Import DiceState.

Lemma show_selection_keeps_flag (self : t) (w : World) :
  interrupt_requested (_show_selection self w) = interrupt_requested w.
Proof.
  unfold _show_selection, play_column. cbn.
  destruct (0 <? _); reflexivity.
Qed.

(** C9 as stated fails for button 1: a d8 result on display stays where it
    is, die and mode, when [B1_DOUBLE] arrives after the settle time. *)
Lemma dice_b1_double_ignored :
  settle_until showing_d8_result ≤ 2000 ∧
  fst (handle_event (Double B1) 2000 1 showing_d8_result
         (mkWorld false [] None []))
    = showing_d8_result ∧
  selected_index showing_d8_result = 3%nat ∧
  mode showing_d8_result = result.
Proof. vm_compute. repeat split; discriminate. Qed.

(** C9, as the code has it: once the settle time is over, [B2_DOUBLE] selects
    the d20 (index 0), puts Dice in selection mode and leaves the interrupt
    flag down; [B1_DOUBLE] changes neither the die nor the mode and only
    lowers the interrupt flag. *)
Theorem dice_double_after_settle (self : t) (w : World) (ck rnd : Z) :
  settle_until self ≤ ck →
  (let '(self', w') := handle_event (Double B2) ck rnd self w in
   selected_index self' = 0%nat ∧ mode self' = selection ∧
   dice_names !! selected_index self' = Some "d20"%string ∧
   interrupt_requested w' = false) ∧
  (let '(self', w') := handle_event (Double B1) ck rnd self w in
   self' = self ∧ interrupt_requested w' = false ∧
   hw w' = hw w ∧ event_queue w' = event_queue w).
Proof.
  intros Hck. unfold handle_event.
  destruct (Z.ltb_spec ck (settle_until self)) as [?|_]; [lia|].
  split.
  - cbv beta iota zeta. rewrite show_selection_keeps_flag.
    repeat split. destruct (interrupt_requested w) eqn:E; [reflexivity|exact E].
  - destruct (interrupt_requested w) eqn:E; cbn; repeat split; exact E.
Qed.

End DiceFacts.


Lemma dice_double_after_settle_witness :
  DiceState.selected_index
    (fst (DiceState.handle_event (Double B2) 2000 1
            DiceState.showing_d8_result (mkWorld true [] None []))) = 0%nat.
Proof.
  pose proof (dice_double_after_settle DiceState.showing_d8_result
                (mkWorld true [] None []) 2000 1) as Hd.
  destruct Hd as [Hd _]; [cbn; lia|].
  destruct (DiceState.handle_event _ _ _ _ _) as [self' w'].
  destruct Hd as [Hd _]. exact Hd.
Defined.

(** ** Playback *)

Section AudioFacts.
Import Audio.

Lemma play_wav_returns (e : Env) : ∃ d, play_wav e = Returned d.
Proof.
  unfold play_wav. destruct (popen e); [| destruct (popen_fallback e) |]; eauto.
Qed.

(** C5 on the code: [play_audio] goes through the adapter, which waits for
    the player process and never raises, so that the [interruptable]
    argument and the interrupt flag have no effect: a ten-second song whose
    playback is interrupted after one second gives control back after ten
    seconds, the stream never stopped, exactly as a non-interruptable call
    does. *)
Theorem play_audio_ignores_interrupt :
  (∀ e interruptable, play_audio e interruptable = play_audio e false) ∧
  interrupt_is_set interrupted_song 1000 = true ∧
  play_audio interrupted_song true = mkReturn 10000 false.
Proof.
  split; [|split; reflexivity].
  intros e interruptable. unfold play_audio.
  destruct (play_wav_returns e) as [d ->]. reflexivity.
Qed.

End AudioFacts.

(** ** The gesture classifier *)

(** Splitting a monitor into its fields, and every two-button dict with it. *)
Ltac open_monitor s :=
  destruct s as [[pt1 pt2] [tc1 tc2] [da1 da2] [dn1 dn2] [su1 su2]
                 armed pending detect lct [lh1 lh2] rs].

Ltac split_ifs :=
  repeat match goal with
         | |- context [if ?b then _ else _] => destruct b eqn:?
         end.

Section ClassifierFacts.

Lemma posted_app (a b : list Out) : posted (a ++ b) = posted a ++ posted b.
Proof. apply omap_app. Qed.

Lemma pulses_app (a b : list Out) : pulses (a ++ b) = pulses a ++ pulses b.
Proof. apply omap_app. Qed.

Lemma syn_edges_app (a b : list Out) :
  syn_edges (a ++ b) = syn_edges a ++ syn_edges b.
Proof. apply omap_app. Qed.

Lemma and_then_eq (f g : Monitor → Monitor * list Out) (s : Monitor) :
  and_then f g s = (fst (g (fst (f s))), snd (f s) ++ snd (g (fst (f s)))).
Proof. reflexivity. Qed.

(** C3, as the code has it: a release that ends a pulse of at least the hold
    threshold of its button (800ms on button 1, 3000ms on button 2) posts no
    [Tap], [Double] or [FiveTap]; it clears the tally and the deadline of
    that button whatever they were, starts the 1.5s cooldown and records the
    hold time, and no tap decision for that button follows in the same
    iteration. It posts exactly one [Hold] for button 2; for button 1 it
    posts exactly one [Hold] unless a chord was resolved less than 750ms
    before, by this very release or earlier, in which case it posts none. *)
Theorem hold_pulse_classified (s : Monitor) (btn : Btn) (t p now2 : Z)
    (ck : Clock) :
  sel (press_time s) btn = Some p →
  HOLD_MS_BY_BTN btn ≤ t - p →
  let s' := fst (release_edge btn t ck s) in
  let out := snd (release_edge btn t ck s) in
  let resolved := chord_pending s && negb (sel (down s) (other btn)) in
  let chord_at := if resolved then ck_chord ck else last_chord_time s in
  List.filter is_tap_family (posted out) = [] ∧
  List.filter is_hold (posted out) =
    (if Btn_eqb btn B1 && (ck_recent ck - chord_at <? CHORD_TAP_SUPPRESS_WINDOW)
     then [] else [Hold btn]) ∧
  pulses out = [t - p] ∧
  sel (tap_count s') btn = 0 ∧
  sel (decide_at s') btn = None ∧
  sel (tap_suppress_until s') btn = ck_suppress ck + hold_cooldown_sec ∧
  sel (last_hold_time s') btn = ck_hold ck ∧
  finalize_btn now2 btn s' = (s', []).
Proof.
  intros Hp Hlong.
  assert (Hthr : 800 ≤ HOLD_MS_BY_BTN btn) by (destruct btn; cbn; lia).
  unfold release_edge. rewrite Hp.
  destruct (Z.ltb_spec t p) as [?|_]; [lia|].
  rewrite and_then_eq. cbn [fst snd]. unfold classify_pulse.
  destruct (Z.ltb_spec (t - p) MIN_PULSE_MS) as [Hs|_];
    [unfold MIN_PULSE_MS in Hs; lia|].
  destruct (Z.leb_spec (HOLD_MS_BY_BTN btn) (t - p)) as [_|?]; [|lia].
  unfold rearm_chord, finalize_btn, chord_recent.
  open_monitor s.
  destruct btn, dn1, dn2, pending; cbn; split_ifs; cbn;
    repeat split; reflexivity.
Qed.

(** C3 as stated fails on button 1: held for 900ms while button 2 is pressed
    and let go, its release resolves the chord and no [Hold] is posted. *)
Lemma long_press_in_chord_posts_no_hold :
  pulses (snd (run long_press_in_chord initial)) = [400; 900] ∧
  HOLD_MS_BY_BTN B1 ≤ 900 ∧
  posted (snd (run long_press_in_chord initial)) = [Chord].
Proof. vm_compute. repeat split; discriminate. Qed.

End ClassifierFacts.

Lemma hold_pulse_classified_witness :
  List.filter is_hold
    (posted (snd (release_edge B1 2000 (at_time 2000) b1_down))) = [Hold B1] ∧
  sel (tap_count (fst (release_edge B1 2000 (at_time 2000) b1_down))) B1 = 0.
Proof.
  pose proof (hold_pulse_classified b1_down B1 2000 1000 0 (at_time 2000))
    as Hh.
  destruct Hh as (_ & Hhold & _ & Htally & _).
  - reflexivity.
  - cbn. lia.
  - split; [exact Hhold|exact Htally].
Defined.

(** ** Debounce *)

Ltac zbool :=
  repeat match goal with
         | H : (_ <? _) = true |- _ => apply Z.ltb_lt in H
         | H : (_ <? _) = false |- _ => apply Z.ltb_ge in H
         | H : (_ <=? _) = true |- _ => apply Z.leb_le in H
         | H : (_ <=? _) = false |- _ => apply Z.leb_gt in H
         end.

Section Debounce.

Lemma run_app (a b : list Tick) (s : Monitor) :
  run (a ++ b) s = and_then (run a) (run b) s.
Proof.
  revert s. induction a as [|i a IH]; intros s.
  - rewrite and_then_eq. cbn. destruct (run b s). reflexivity.
  - cbn [app run]. rewrite !and_then_eq. cbn [fst snd].
    rewrite IH, and_then_eq. cbn [fst snd]. rewrite app_assoc. reflexivity.
Qed.

Lemma pulses_release b d o : pulses (LogRelease b d :: o) = d :: pulses o.
Proof. reflexivity. Qed.

Lemma posted_release b d o : posted (LogRelease b d :: o) = posted o.
Proof. reflexivity. Qed.

Lemma pulses_syn_release b d o :
  pulses (LogSynRelease b d :: o) = d :: pulses o.
Proof. reflexivity. Qed.

Lemma posted_syn_release b d o : posted (LogSynRelease b d :: o) = posted o.
Proof. reflexivity. Qed.

Lemma and_then_blip_proof (f g : Monitor → Monitor * list Out) :
  blip_proof f → blip_proof g → blip_proof (and_then f g).
Proof.
  intros Hf Hg s Hcalm. rewrite and_then_eq. cbn [fst snd].
  rewrite pulses_app, posted_app, Forall_app. intros [Hpf Hpg].
  destruct (Hf s Hcalm Hpf) as [Hcalm1 Hposted1].
  destruct (Hg _ Hcalm1 Hpg) as [Hcalm2 Hposted2].
  split; [exact Hcalm2|]. apply Forall_app. split; assumption.
Qed.

Lemma skip_blip_proof : blip_proof (λ s, (s, [])).
Proof. intros s Hcalm _. split; [exact Hcalm|constructor]. Qed.

Lemma press_edge_blip_proof btn t ck : blip_proof (press_edge btn t ck).
Proof.
  intros s [Htc Hda] _. unfold press_edge, calm.
  open_monitor s. cbn in Htc, Hda.
  injection Htc as -> ->. injection Hda as -> ->.
  destruct btn, dn1, dn2, pt1, pt2; cbn; split_ifs; cbn;
    repeat split; constructor.
Qed.

Lemma rearm_chord_calm ck s :
  calm s →
  calm (fst (rearm_chord ck s)) ∧
  Forall (λ g, g = Chord) (posted (snd (rearm_chord ck s))) ∧
  pulses (snd (rearm_chord ck s)) = [].
Proof.
  intros [Htc Hda]. unfold rearm_chord, calm.
  open_monitor s. cbn in Htc, Hda.
  injection Htc as -> ->. injection Hda as -> ->.
  destruct dn1, dn2, pending; cbn; repeat split; repeat constructor.
Qed.

Lemma classify_blip btn t pulse_ms ck s :
  pulse_ms < MIN_PULSE_MS → classify_pulse btn t pulse_ms ck s = (s, []).
Proof.
  intros Hshort. unfold classify_pulse.
  destruct (Z.ltb_spec pulse_ms MIN_PULSE_MS); [reflexivity|lia].
Qed.

Lemma release_edge_blip_proof btn t ck : blip_proof (release_edge btn t ck).
Proof.
  intros s Hcalm. unfold release_edge.
  destruct (sel (press_time s) btn) as [p|] eqn:Hp.
  - cbv zeta. rewrite and_then_eq. cbn [fst snd].
    set (pulse_ms := (if t <? p then p else t) - p).
    set (s1 := set_press_time _ _).
    assert (Hcalm1 : calm s1) by exact Hcalm.
    destruct (rearm_chord_calm ck s1 Hcalm1) as (Hc & Hposted & Hpulses).
    rewrite pulses_release, posted_release, pulses_app, Hpulses.
    intros Hshort.
    assert (Hlt : pulse_ms < MIN_PULSE_MS) by (inversion Hshort; assumption).
    rewrite classify_blip by exact Hlt. cbn [fst snd].
    rewrite app_nil_r. split; [exact Hc|exact Hposted].
  - intros _. destruct Hcalm as [Htc Hda]. unfold calm.
    open_monitor s. cbn in Htc, Hda.
    injection Htc as -> ->. injection Hda as -> ->.
    destruct btn; cbn; repeat split; constructor.
Qed.

Lemma process_edge_blip_proof e ck : blip_proof (process_edge e ck).
Proof.
  destruct e as [[[btn [|]] t]|]; cbn.
  - apply press_edge_blip_proof.
  - apply release_edge_blip_proof.
  - apply skip_blip_proof.
Qed.

Lemma finalize_btn_calm now2 b s : calm s → finalize_btn now2 b s = (s, []).
Proof.
  intros [_ Hda]. unfold finalize_btn. rewrite Hda. destruct b; reflexivity.
Qed.

Lemma finalize_blip_proof now2 : blip_proof (finalize now2).
Proof.
  intros s Hcalm _. unfold finalize. rewrite and_then_eq.
  rewrite (finalize_btn_calm now2 B1 s Hcalm). cbn [fst snd].
  rewrite (finalize_btn_calm now2 B2 s Hcalm). cbn [fst snd].
  split; [exact Hcalm|constructor].
Qed.

Lemma chord_timeout_blip_proof now : blip_proof (chord_timeout now).
Proof.
  intros s Hcalm _. unfold chord_timeout.
  destruct (chord_detect_time s); split_ifs; cbn;
    (split; [exact Hcalm|constructor]).
Qed.

Lemma syn_press_blip_proof btn now_mon : blip_proof (syn_press btn now_mon).
Proof.
  intros s [Htc Hda] _. unfold syn_press, calm, set_last_synth_time.
  open_monitor s. cbn in Htc, Hda.
  injection Htc as -> ->. injection Hda as -> ->.
  destruct btn, dn1, dn2, pt1, pt2; cbn; split_ifs; cbn;
    repeat split; constructor.
Qed.

Lemma syn_rearm_chord_calm ck s :
  calm s →
  calm (fst (syn_rearm_chord ck s)) ∧
  Forall (λ g, g = Chord) (posted (snd (syn_rearm_chord ck s))) ∧
  pulses (snd (syn_rearm_chord ck s)) = [].
Proof.
  intros [Htc Hda]. unfold syn_rearm_chord, calm.
  open_monitor s. cbn in Htc, Hda.
  injection Htc as -> ->. injection Hda as -> ->.
  destruct dn1, dn2, pending; cbn; repeat split; repeat constructor.
Qed.

Lemma syn_classify_blip btn t pulse_ms ck s :
  pulse_ms < MIN_PULSE_MS → syn_classify_pulse btn t pulse_ms ck s = (s, []).
Proof.
  intros Hshort. unfold syn_classify_pulse.
  destruct (Z.ltb_spec pulse_ms MIN_PULSE_MS); [reflexivity|lia].
Qed.

Lemma syn_release_blip_proof btn now_mon ck :
  blip_proof (syn_release btn now_mon ck).
Proof.
  intros s Hcalm. unfold syn_release.
  cbv zeta. rewrite and_then_eq. cbn [fst snd].
  set (pulse_ms := Z.max 0 _).
  set (s1 := set_last_synth_time _ _ _).
  assert (Hcalm1 : calm s1) by exact Hcalm.
  destruct (syn_rearm_chord_calm ck s1 Hcalm1) as (Hc & Hposted & Hpulses).
  rewrite pulses_syn_release, posted_syn_release, pulses_app, Hpulses.
  intros Hshort.
  assert (Hlt : pulse_ms < MIN_PULSE_MS) by (inversion Hshort; assumption).
  rewrite syn_classify_blip by exact Hlt. cbn [fst snd].
  rewrite app_nil_r. split; [exact Hc|exact Hposted].
Qed.

Lemma resync_btn_blip_proof raw now_mon ck btn :
  blip_proof (resync_btn raw now_mon ck btn).
Proof.
  apply and_then_blip_proof; intros s Hcalm.
  - unfold resync_press.
    destruct (_ && _ && _); [apply syn_press_blip_proof|apply skip_blip_proof];
      exact Hcalm.
  - unfold resync_release.
    destruct (_ && _ && _); [apply syn_release_blip_proof|apply skip_blip_proof];
      exact Hcalm.
Qed.

Lemma resync_step_blip_proof i : blip_proof (resync_step i).
Proof.
  intros s Hcalm. unfold resync_step.
  apply and_then_blip_proof; [apply resync_btn_blip_proof..|].
  exact Hcalm.
Qed.

Lemma loop_body_blip_proof i : blip_proof (loop_body i).
Proof.
  unfold loop_body.
  apply and_then_blip_proof; [apply process_edge_blip_proof|].
  apply and_then_blip_proof; [apply finalize_blip_proof|].
  apply and_then_blip_proof; [apply chord_timeout_blip_proof|].
  apply resync_step_blip_proof.
Qed.

Lemma run_blip_proof ticks : blip_proof (run ticks).
Proof.
  induction ticks as [|i ticks IH]; cbn [run].
  - apply skip_blip_proof.
  - apply and_then_blip_proof; [apply loop_body_blip_proof|exact IH].
Qed.

(** C1 fails on the code, against its own comments ("ignore pulses shorter
    than this", l.83; "Ignore very short blips", l.1210): two overlapping
    blips of 10ms, one on each button, measured as two pulses of 10ms, put
    a [Chord] on the queue. The chord is resolved (l.1192-1208) before the
    length of the pulse is looked at (l.1210-1212). *)
Lemma overlapping_blips_post_chord :
  pulses (snd (run overlapping_blips initial)) = [10; 10] ∧
  posted (snd (run overlapping_blips initial)) = [Chord].
Proof. vm_compute. split; reflexivity. Qed.

(** X25: what the filter of short pulses does keep out. In a run of the
    loop from its initial state in which every measured pulse, real or
    synthesized, is shorter than 20ms, nothing but [Chord] is ever posted
    (no [Tap], [Double], [FiveTap] or [Hold]), and after every iteration
    both tap tallies are still zero and no decision is pending. *)
Theorem blips_post_no_tap_or_hold (done to_come : list Tick) :
  Forall (λ d, d < MIN_PULSE_MS)
         (pulses (snd (run (done ++ to_come) initial))) →
  Forall (λ g, g = Chord) (posted (snd (run (done ++ to_come) initial))) ∧
  tap_count (fst (run done initial)) = per 0 0 ∧
  decide_at (fst (run done initial)) = per None None.
Proof.
  intros Hshort.
  assert (Hcalm : calm initial) by (split; reflexivity).
  split; [apply (run_blip_proof _ initial Hcalm Hshort)|].
  rewrite run_app, and_then_eq in Hshort. cbn [snd] in Hshort.
  rewrite pulses_app in Hshort. apply Forall_app in Hshort as [Hdone _].
  apply (run_blip_proof done initial Hcalm Hdone).
Qed.

End Debounce.

Lemma blips_post_no_tap_or_hold_witness :
  Forall (λ g, g = Chord) (posted (snd (run overlapping_blips initial))) ∧
  tap_count (fst (run (take 3 overlapping_blips) initial)) = per 0 0 ∧
  decide_at (fst (run (take 3 overlapping_blips) initial)) = per None None.
Proof.
  apply (blips_post_no_tap_or_hold (take 3 overlapping_blips)
           (drop 3 overlapping_blips)).
  vm_compute. repeat constructor.
Defined.

(** ** Resync *)

Section ResyncFacts.

(** The two copies of the chord block and of the pulse classification, in
    the real and in the synthesized release, are the same code. *)
Lemma syn_rearm_chord_same ck s : syn_rearm_chord ck s = rearm_chord ck s.
Proof. reflexivity. Qed.

Lemma syn_classify_pulse_same btn t pulse_ms ck s :
  syn_classify_pulse btn t pulse_ms ck s = classify_pulse btn t pulse_ms ck s.
Proof. reflexivity. Qed.

(** Neither block reads [press_time] or the resync attributes. *)
Lemma rearm_chord_frame_synth ck b v s :
  rearm_chord ck (set_last_synth_time b v s) =
    (set_last_synth_time b v (fst (rearm_chord ck s)), snd (rearm_chord ck s)).
Proof.
  unfold rearm_chord, set_last_synth_time. open_monitor s.
  destruct dn1, dn2, pending; reflexivity.
Qed.

Lemma rearm_chord_frame_press ck g s :
  rearm_chord ck (set_press_time g s) =
    (set_press_time g (fst (rearm_chord ck s)), snd (rearm_chord ck s)).
Proof.
  unfold rearm_chord. open_monitor s.
  destruct dn1, dn2, pending; reflexivity.
Qed.

Lemma classify_pulse_frame_synth btn t pulse_ms ck b v s :
  classify_pulse btn t pulse_ms ck (set_last_synth_time b v s) =
    (set_last_synth_time b v (fst (classify_pulse btn t pulse_ms ck s)),
     snd (classify_pulse btn t pulse_ms ck s)).
Proof.
  unfold classify_pulse, set_last_synth_time, chord_recent. open_monitor s.
  destruct btn, pending; cbn; split_ifs; reflexivity.
Qed.

Lemma classify_pulse_frame_press btn t pulse_ms ck g s :
  classify_pulse btn t pulse_ms ck (set_press_time g s) =
    (set_press_time g (fst (classify_pulse btn t pulse_ms ck s)),
     snd (classify_pulse btn t pulse_ms ck s)).
Proof.
  unfold classify_pulse, chord_recent. open_monitor s.
  destruct btn, pending; cbn; split_ifs; reflexivity.
Qed.

Lemma set_press_time_last_synth g b v s :
  set_press_time g (set_last_synth_time b v s) =
  set_last_synth_time b v (set_press_time g s).
Proof. reflexivity. Qed.

Lemma set_down_last_synth g b v s :
  set_down g (set_last_synth_time b v s) =
  set_last_synth_time b v (set_down g s).
Proof. reflexivity. Qed.

Lemma rearm_chord_no_syn ck s : syn_edges (snd (rearm_chord ck s)) = [].
Proof. unfold rearm_chord. split_ifs; reflexivity. Qed.

Lemma classify_pulse_no_syn btn t pulse_ms ck s :
  syn_edges (snd (classify_pulse btn t pulse_ms ck s)) = [].
Proof.
  unfold classify_pulse. split_ifs; try destruct btn; split_ifs; reflexivity.
Qed.

Lemma syn_release_edges btn now_mon ck s :
  syn_edges (snd (syn_release btn now_mon ck s)) = [(btn, false)].
Proof.
  unfold syn_release. cbv zeta. rewrite and_then_eq. cbn [fst snd].
  rewrite syn_rearm_chord_same, syn_classify_pulse_same.
  change (syn_edges (LogSynRelease btn ?d :: ?o))
    with ((btn, false) :: syn_edges o).
  rewrite syn_edges_app, rearm_chord_no_syn, classify_pulse_no_syn.
  reflexivity.
Qed.

Lemma syn_press_edges btn now_mon s :
  syn_edges (snd (syn_press btn now_mon s)) = [(btn, true)].
Proof. reflexivity. Qed.

(** The deadline base matters only to a pulse that is not a blip. *)
Lemma classify_pulse_clamped btn p now_mon ck s :
  classify_pulse btn now_mon (Z.max 0 (now_mon - p)) ck s =
  classify_pulse btn (if now_mon <? p then p else now_mon)
                 ((if now_mon <? p then p else now_mon) - p) ck s.
Proof.
  destruct (Z.ltb_spec now_mon p) as [Hlt|Hge].
  - replace (Z.max 0 (now_mon - p)) with 0 by lia.
    replace (p - p) with 0 by lia. reflexivity.
  - replace (Z.max 0 (now_mon - p)) with (now_mon - p) by lia. reflexivity.
Qed.

(** A synthesized release is the real release of the same button stamped
    [now_mon], plus the note of the synthesis time. *)
Lemma syn_release_as_real btn now_mon ck s p :
  sel (press_time s) btn = Some p →
  fst (syn_release btn now_mon ck s) =
    set_last_synth_time btn now_mon (fst (release_edge btn now_mon ck s)) ∧
  posted (snd (syn_release btn now_mon ck s)) =
    posted (snd (release_edge btn now_mon ck s)) ∧
  pulses (snd (syn_release btn now_mon ck s)) =
    pulses (snd (release_edge btn now_mon ck s)) ∧
  pulses (snd (syn_release btn now_mon ck s)) = [Z.max 0 (now_mon - p)].
Proof.
  intros Hp. unfold syn_release, release_edge. rewrite Hp. cbv zeta.
  rewrite !and_then_eq. cbn [fst snd].
  rewrite !syn_rearm_chord_same, !syn_classify_pulse_same.
  rewrite !rearm_chord_frame_synth. cbn [fst snd].
  rewrite !classify_pulse_frame_synth. cbn [fst snd].
  rewrite !rearm_chord_frame_press. cbn [fst snd].
  rewrite !classify_pulse_frame_press. cbn [fst snd].
  rewrite !classify_pulse_clamped.
  set (t := if now_mon <? p then p else now_mon).
  assert (Hpulse : Z.max 0 (now_mon - p) = t - p).
  { subst t. destruct (Z.ltb_spec now_mon p); lia. }
  rewrite Hpulse.
  split; [reflexivity|]. split; [reflexivity|]. split; [reflexivity|].
  unfold rearm_chord, classify_pulse.
  split_ifs; try destruct btn; split_ifs; reflexivity.
Qed.

(** A synthesized press is the real press of the same button stamped
    [now_mon] whose chord detection reads the clock at [now_mon], plus the
    note of the synthesis time. *)
Lemma syn_press_as_real btn now_mon ck s :
  ck_detect ck = now_mon →
  fst (syn_press btn now_mon s) =
    set_last_synth_time btn now_mon (fst (press_edge btn now_mon ck s)) ∧
  posted (snd (syn_press btn now_mon s)) = [] ∧
  pulses (snd (syn_press btn now_mon s)) = [].
Proof.
  intros Hck. unfold syn_press, press_edge, set_last_synth_time. rewrite Hck.
  open_monitor s.
  destruct btn, dn1, dn2, pt1, pt2; cbn; split_ifs; repeat split; reflexivity.
Qed.

(** C4, as the code has it: for one button, the resync block synthesizes
    at most one edge per iteration, and only when the raw level read in this
    iteration differs from the believed state, the monitor has seen the raw
    level unchanged for at least 30ms ([raw_stable_since], which restarts
    whenever a sampled level differs from the previous sample, and not when
    the belief changes), and at least 120ms have passed since the last
    synthesized edge of that button. The synthesized edge leaves the
    monitor, the event queue and the measured pulse exactly as the real edge
    of that button stamped [now_mon] does, except that the synthesis time is
    noted; synthesized pulses are never negative. *)
Theorem resync_synthesizes_when (raw_now : PerBtn bool) (now_mon : Z)
    (ck : Clock) (btn : Btn) (s : Monitor) :
  (sel (down s) btn = true → is_Some (sel (press_time s) btn)) →
  let out := snd (resync_btn raw_now now_mon ck btn s) in
  let real := process_edge (Some (btn, sel raw_now btn, now_mon))
                (mkClock now_mon (ck_chord ck) (ck_suppress ck) (ck_hold ck)
                         (ck_recent ck) (ck_tally ck)) s in
  (syn_edges out = [] ∨ syn_edges out = [(btn, sel raw_now btn)]) ∧
  (syn_edges out ≠ [] →
     ∃ r, resync s = Some r ∧
          sel raw_now btn ≠ sel (down s) btn ∧
          RESYNC_SAMPLE_MS ≤ now_mon - sel (raw_stable_since r) btn ∧
          RESYNC_COOLDOWN_MS ≤ now_mon - sel (last_synth_time r) btn) ∧
  (syn_edges out ≠ [] →
     fst (resync_btn raw_now now_mon ck btn s)
       = set_last_synth_time btn now_mon (fst real) ∧
     posted out = posted (snd real) ∧
     pulses out = pulses (snd real)) ∧
  Forall (λ d, 0 ≤ d) (pulses out) ∧
  (∀ r, sel (raw_stable_since (track_raw raw_now now_mon btn r)) btn =
        if eqb (sel raw_now btn) (sel (last_raw r) btn)
        then sel (raw_stable_since r) btn else now_mon).
Proof.
  intros Hinv. cbv zeta. destruct ck as [c_detect c_chord c_sup c_hold c_rec c_tal].
  cbn [ck_chord ck_suppress ck_hold ck_recent ck_tally].
  set (ck := mkClock c_detect c_chord c_sup c_hold c_rec c_tal).
  assert (Htrack : ∀ r,
            sel (raw_stable_since (track_raw raw_now now_mon btn r)) btn =
            if eqb (sel raw_now btn) (sel (last_raw r) btn)
            then sel (raw_stable_since r) btn else now_mon).
  { intros r. unfold track_raw.
    destruct (eqb (sel raw_now btn) (sel (last_raw r) btn)); cbn;
      [reflexivity|].
    destruct btn, (raw_stable_since r); reflexivity. }
  assert (Hcan : can_synthesize now_mon s btn = true →
            ∃ r, resync s = Some r ∧
                 RESYNC_SAMPLE_MS ≤ now_mon - sel (raw_stable_since r) btn ∧
                 RESYNC_COOLDOWN_MS ≤ now_mon - sel (last_synth_time r) btn).
  { unfold can_synthesize. destruct (resync s) as [r|]; [|discriminate].
    intros [H1 H2]%andb_prop. exists r. zbool. auto. }
  unfold resync_btn. rewrite and_then_eq. cbn [fst snd].
  destruct (sel raw_now btn) eqn:Hraw.
  - (* the pin reads pressed *)
    assert (Hrel : ∀ s', resync_release raw_now now_mon ck btn s' = (s', [])).
    { intros s'. unfold resync_release. rewrite Hraw. reflexivity. }
    rewrite !Hrel. cbn [fst snd]. rewrite !app_nil_r.
    destruct (negb (sel (down s) btn) && can_synthesize now_mon s btn)
      eqn:Hfire.
    + assert (Hpress : resync_press raw_now now_mon btn s
                         = syn_press btn now_mon s).
      { unfold resync_press. rewrite Hraw. cbn [andb]. rewrite Hfire.
        reflexivity. }
      rewrite !Hpress.
      apply andb_prop in Hfire as [Hup Hc].
      apply negb_true_iff in Hup.
      destruct (Hcan Hc) as (r & Hr & Hstable & Hcool).
      destruct (syn_press_as_real btn now_mon
                  (mkClock now_mon c_chord c_sup c_hold c_rec c_tal) s eq_refl)
        as (Hst & Hpo & Hpu).
      rewrite Hpu.
      split; [right; apply syn_press_edges|].
      split; [intros _; exists r; rewrite Hup; repeat split; auto; discriminate|].
      split; [intros _; cbn [process_edge]; split; [exact Hst|];
              split; [exact Hpo|reflexivity]|].
      split; [constructor|exact Htrack].
    + assert (Hpress : resync_press raw_now now_mon btn s = (s, [])).
      { unfold resync_press. rewrite Hraw. cbn [andb]. rewrite Hfire.
        reflexivity. }
      rewrite !Hpress. cbn [fst snd].
      split; [left; reflexivity|].
      split; [intros []; reflexivity|].
      split; [intros []; reflexivity|].
      split; [constructor|exact Htrack].
  - (* the pin reads released *)
    assert (Hpress : resync_press raw_now now_mon btn s = (s, [])).
    { unfold resync_press. rewrite Hraw. reflexivity. }
    rewrite !Hpress. cbn [fst snd app].
    destruct (sel (down s) btn && can_synthesize now_mon s btn) eqn:Hfire.
    + assert (Hrel : resync_release raw_now now_mon ck btn s
                       = syn_release btn now_mon ck s).
      { unfold resync_release. rewrite Hraw. cbn [negb andb]. rewrite Hfire.
        reflexivity. }
      rewrite !Hrel.
      apply andb_prop in Hfire as [Hdown Hc].
      destruct (Hcan Hc) as (r & Hr & Hstable & Hcool).
      destruct (Hinv Hdown) as [p Hp].
      destruct (syn_release_as_real btn now_mon
                  (mkClock now_mon c_chord c_sup c_hold c_rec c_tal) s p Hp)
        as (Hst & Hpo & Hpu & Hd).
      assert (Hsame : syn_release btn now_mon ck s =
                syn_release btn now_mon
                  (mkClock now_mon c_chord c_sup c_hold c_rec c_tal) s)
        by reflexivity.
      rewrite Hsame, syn_release_edges.
      split; [right; reflexivity|].
      split; [intros _; exists r; rewrite Hdown; repeat split; auto; discriminate|].
      split; [intros _; cbn [process_edge]; split; [exact Hst|];
              split; [exact Hpo|exact Hpu]|].
      split; [rewrite Hd; repeat constructor; lia|exact Htrack].
    + assert (Hrel : resync_release raw_now now_mon ck btn s = (s, [])).
      { unfold resync_release. rewrite Hraw. cbn [negb andb]. rewrite Hfire.
        reflexivity. }
      rewrite !Hrel. cbn [fst snd].
      split; [left; reflexivity|].
      split; [intros []; reflexivity|].
      split; [intros []; reflexivity|].
      split; [constructor|exact Htrack].
Qed.

(** C4 as stated fails on the length of the disagreement: button 1 is
    believed down and reads pressed in the iteration at 1500ms; 10ms later
    a release edge is taken from the queue while the pin still reads
    pressed, and the same iteration synthesizes a press, the disagreement
    not even one iteration old, because the raw level has been stable since
    1000ms. *)
Lemma resync_fires_on_fresh_mismatch :
  sel (down (fst (run bounce_while_held initial))) B1 = true ∧
  syn_edges (snd (run bounce_while_held initial)) = [] ∧
  sel (raw_now bounce_release) B1 = true ∧
  now_mon bounce_release = 1510 ∧
  syn_edges (snd (loop_body bounce_release
                    (fst (run bounce_while_held initial)))) = [(B1, true)].
Proof. vm_compute. repeat split; reflexivity. Qed.

End ResyncFacts.

Lemma resync_synthesizes_when_witness :
  syn_edges
    (snd (resync_btn (per false false) 2000 (at_time 2000) B1
            (set_resync (Some (mkResync (per false false) (per 1500 0) (per 0 0)))
                        b1_down)))
    = [(B1, false)] ∧
  pulses
    (snd (resync_btn (per false false) 2000 (at_time 2000) B1
            (set_resync (Some (mkResync (per false false) (per 1500 0) (per 0 0)))
                        b1_down)))
    = [1000].
Proof.
  pose proof (resync_synthesizes_when (per false false) 2000 (at_time 2000) B1
    (set_resync (Some (mkResync (per false false) (per 1500 0) (per 0 0)))
                b1_down)) as Hr.
  destruct Hr as ([Hnone|Hone] & _ & Hsame & _).
  - intros _. exists 1000. reflexivity.
  - discriminate Hnone.
  - split; [exact Hone|].
    destruct Hsame as (_ & _ & Hpulses); [discriminate|exact Hpulses].
Defined.

(** ** Chords *)

Section ChordFacts.

Lemma loop_body_classify i s :
  loop_body i s = and_then (classify i) (resync_step i) s.
Proof.
  unfold loop_body, classify. rewrite !and_then_eq. cbn [fst snd].
  rewrite !app_assoc. reflexivity.
Qed.

(** *** When the resync block stays silent *)

Lemma resync_press_silent raw now_mon btn s :
  syn_edges (snd (resync_press raw now_mon btn s)) = [] →
  resync_press raw now_mon btn s = (s, []).
Proof.
  unfold resync_press. destruct (_ && _ && _); [|reflexivity].
  rewrite syn_press_edges. discriminate.
Qed.

Lemma resync_release_silent raw now_mon ck btn s :
  syn_edges (snd (resync_release raw now_mon ck btn s)) = [] →
  resync_release raw now_mon ck btn s = (s, []).
Proof.
  unfold resync_release. destruct (_ && _ && _); [|reflexivity].
  rewrite syn_release_edges. discriminate.
Qed.

Lemma resync_btn_silent raw now_mon ck btn s :
  syn_edges (snd (resync_btn raw now_mon ck btn s)) = [] →
  resync_btn raw now_mon ck btn s = (s, []).
Proof.
  unfold resync_btn. rewrite and_then_eq. cbn [fst snd].
  rewrite syn_edges_app. intros [Hp Hr]%app_eq_nil.
  rewrite (resync_press_silent _ _ _ _ Hp) in Hr |- *. cbn [fst snd] in Hr |- *.
  rewrite (resync_release_silent _ _ _ _ _ Hr). reflexivity.
Qed.

Lemma resync_step_silent i s :
  syn_edges (snd (resync_step i s)) = [] →
  ∃ r, resync_step i s = (set_resync r s, []).
Proof.
  unfold resync_step. set (s1 := set_resync _ s).
  rewrite and_then_eq. cbn [fst snd]. rewrite syn_edges_app.
  intros [H1 H2]%app_eq_nil.
  rewrite (resync_btn_silent _ _ _ _ _ H1) in H2 |- *. cbn [fst snd] in H2 |- *.
  rewrite (resync_btn_silent _ _ _ _ _ H2). eexists. reflexivity.
Qed.

Lemma classify_no_syn i s : syn_edges (snd (classify i s)) = [].
Proof.
  unfold classify. rewrite !and_then_eq. cbn [fst snd].
  rewrite !syn_edges_app.
  assert (H1 : ∀ s', syn_edges (snd (process_edge (edge i) (ck_edge i) s')) = []).
  { intros s'. destruct (edge i) as [[[b [|]] t]|]; cbn [process_edge];
      [reflexivity| |reflexivity].
    unfold release_edge. destruct (sel (press_time s') b); [|reflexivity].
    cbv zeta. rewrite and_then_eq. cbn [fst snd].
    change (syn_edges (LogRelease b ?d :: ?o)) with (syn_edges o).
    rewrite syn_edges_app, rearm_chord_no_syn, classify_pulse_no_syn.
    reflexivity. }
  assert (H2 : ∀ b s', syn_edges (snd (finalize_btn (now2 i) b s')) = []).
  { intros b s'. unfold finalize_btn, decide.
    destruct (sel (decide_at s') b); split_ifs; reflexivity. }
  assert (H3 : ∀ s', syn_edges (snd (chord_timeout (ck_timeout i) s')) = []).
  { intros s'. unfold chord_timeout.
    destruct (chord_detect_time s'); split_ifs; reflexivity. }
  unfold finalize. rewrite and_then_eq. cbn [fst snd].
  rewrite syn_edges_app, H1, !H2, H3. reflexivity.
Qed.

(** A silent iteration is its classification, the resync attributes aside. *)
Lemma loop_body_silent i s :
  syn_edges (snd (loop_body i s)) = [] →
  ∃ r, loop_body i s = (set_resync r (fst (classify i s)), snd (classify i s)).
Proof.
  rewrite loop_body_classify, and_then_eq. cbn [fst snd].
  rewrite syn_edges_app. intros [_ Hs]%app_eq_nil.
  destruct (resync_step_silent i _ Hs) as [r ->]. cbn [fst snd].
  rewrite app_nil_r. exists r. reflexivity.
Qed.

(** *** Steps that do nothing *)


Lemma chord_timeout_not_pending now s :
  chord_pending s = false → chord_timeout now s = (s, []).
Proof.
  intros Hp. unfold chord_timeout. rewrite Hp.
  destruct (chord_detect_time s); reflexivity.
Qed.


Lemma finalize_not_due now2 s :
  (∀ b, not_due (sel (decide_at s) b) now2 = true) →
  finalize now2 s = (s, []).
Proof.
  intros Hnd.
  assert (H : ∀ b, finalize_btn now2 b s = (s, [])).
  { intros b. specialize (Hnd b). unfold finalize_btn, not_due in *.
    destruct (sel (decide_at s) b) as [d|]; [|reflexivity].
    apply Z.ltb_lt in Hnd.
    destruct (Z.leb_spec d now2); [lia|reflexivity]. }
  unfold finalize. rewrite and_then_eq, (H B1). cbn [fst snd].
  rewrite (H B2). reflexivity.
Qed.



(** *** The two blocks of a release during a chord contact *)





Lemma sel_upd_same {A} (b : Btn) (v : A) d : sel (upd b v d) b = v.
Proof. destruct b; reflexivity. Qed.



(** *** The four edges of the contact *)





(** *** Runs *)





End ChordFacts.


(** * Further properties of the code *)

(** ** Consistency of the monitor's variables *)

(** Case analysis on every variable a goal or hypothesis branches on. *)
Ltac branch :=
  repeat match goal with
         | H : context [match ?x with _ => _ end] |- _ =>
             is_var x; destruct x; cbn beta iota in *
         | |- context [match ?x with _ => _ end] =>
             is_var x; destruct x; cbn beta iota in *
         | |- context [negb ?x] => is_var x; destruct x; cbn [negb andb]
         | |- context [andb ?x _] => is_var x; destruct x; cbn [negb andb]
         end.

Ltac wf_unfold :=
  unfold well_formed, tracks_ok, chord_held, chord_disarmed, press_recorded,
         tally_has_deadline in *.

Ltac wf_finish :=
  repeat match goal with
         | H : _ ∧ _ |- _ => destruct H
         end;
  try solve [intuition (try discriminate; try congruence; try lia)].

Ltac wf_close := cbn in *; branch; split_ifs; cbn in *; wf_finish.

Section Consistency.

Ltac by_cases_on s :=
  open_monitor s; cbn; branch; split_ifs; cbn; wf_finish.

Lemma well_formed_intro s :
  (∀ b, press_recorded s b) → (∀ b, tally_has_deadline s b) →
  chord_disarmed s → chord_held s → well_formed s.
Proof.
  intros Hp Ht Hc Hh.
  split; [|exact Hh].
  split; [apply Hp|]. split; [apply Hp|].
  split; [apply Ht|]. split; [apply Ht|exact Hc].
Qed.

Lemma well_formed_elim s :
  well_formed s →
  (∀ b, press_recorded s b) ∧ (∀ b, tally_has_deadline s b) ∧
  chord_disarmed s ∧ chord_held s.
Proof.
  intros ((P1 & P2 & T1 & T2 & C) & Hh).
  split; [intros []; assumption|].
  split; [intros []; assumption|].
  split; assumption.
Qed.

Lemma and_then_keeps f g :
  keeps_well_formed f → keeps_well_formed g →
  keeps_well_formed (and_then f g).
Proof. intros Hf Hg s Hs. rewrite and_then_eq. apply Hg, Hf, Hs. Qed.

Lemma skip_keeps : keeps_well_formed (λ s, (s, [])).
Proof. intros s Hs. exact Hs. Qed.

Lemma press_edge_keeps btn t ck : keeps_well_formed (press_edge btn t ck).
Proof.
  intros s (Hp & Ht & Hc & Hh)%well_formed_elim.
  apply well_formed_intro.
  - intros b. specialize (Hp b). clear Ht Hc Hh. revert Hp.
    unfold press_edge, press_recorded. destruct btn, b; by_cases_on s.
  - intros b. specialize (Ht b). clear Hp Hc Hh. revert Ht.
    unfold press_edge, tally_has_deadline. destruct btn, b; by_cases_on s.
  - clear Hp Ht Hh. revert Hc.
    unfold press_edge, chord_disarmed. destruct btn; by_cases_on s.
  - clear Hp Ht Hc. revert Hh.
    unfold press_edge, chord_held. destruct btn; by_cases_on s.
Qed.

(** The chord block leaves no pending chord without a button down, whatever
    it is given. *)
Lemma rearm_chord_tracks ck s :
  tracks_ok s →
  tracks_ok (fst (rearm_chord ck s)) ∧ chord_held (fst (rearm_chord ck s)).
Proof.
  intros (P1 & P2 & T1 & T2 & C).
  split; [split; [|split; [|split; [|split]]]|].
  - clear P2 T1 T2 C. revert P1. unfold rearm_chord, press_recorded.
    by_cases_on s.
  - clear P1 T1 T2 C. revert P2. unfold rearm_chord, press_recorded.
    by_cases_on s.
  - clear P1 P2 T2 C. revert T1. unfold rearm_chord, tally_has_deadline.
    by_cases_on s.
  - clear P1 P2 T1 C. revert T2. unfold rearm_chord, tally_has_deadline.
    by_cases_on s.
  - clear P1 P2 T1 T2. revert C. unfold rearm_chord, chord_disarmed.
    by_cases_on s.
  - clear. unfold rearm_chord, chord_held. by_cases_on s.
Qed.

Lemma classify_pulse_keeps btn t pulse_ms ck :
  keeps_well_formed (classify_pulse btn t pulse_ms ck).
Proof.
  intros s (Hp & Ht & Hc & Hh)%well_formed_elim.
  apply well_formed_intro.
  - intros b. specialize (Hp b). clear Ht Hc Hh. revert Hp.
    unfold classify_pulse, press_recorded. destruct btn, b; by_cases_on s.
  - intros b. specialize (Ht b). clear Hp Hc Hh. revert Ht.
    unfold classify_pulse, tally_has_deadline. destruct btn, b; by_cases_on s.
  - clear Hp Ht Hh. revert Hc.
    unfold classify_pulse, chord_disarmed. destruct btn; by_cases_on s.
  - clear Hp Ht Hc. revert Hh.
    unfold classify_pulse, chord_held. destruct btn; by_cases_on s.
Qed.

Lemma button_up_tracks btn s :
  tracks_ok s →
  tracks_ok (s |> set_down (upd btn false) |> set_press_time (upd btn None)).
Proof.
  intros (P1 & P2 & T1 & T2 & C).
  split; [|split; [|split; [|split]]].
  - clear P2 T1 T2 C. revert P1. unfold press_recorded.
    destruct btn; by_cases_on s.
  - clear P1 T1 T2 C. revert P2. unfold press_recorded.
    destruct btn; by_cases_on s.
  - exact T1.
  - exact T2.
  - exact C.
Qed.

Lemma orphan_release_keeps btn s :
  sel (press_time s) btn = None → well_formed s →
  well_formed (s |> set_down (upd btn false)
                 |> set_press_time (upd btn None)
                 |> set_decide_at (upd btn None)
                 |> set_tap_count (upd btn 0)).
Proof.
  intros Hnone (Hp & Ht & Hc & Hh)%well_formed_elim.
  apply well_formed_intro.
  - intros b. specialize (Hp b). clear Ht Hc Hh Hnone. revert Hp.
    unfold press_recorded. destruct btn, b; by_cases_on s.
  - intros b. specialize (Ht b). clear Hp Hc Hh Hnone. revert Ht.
    unfold tally_has_deadline. destruct btn, b; by_cases_on s.
  - exact Hc.
  - specialize (Hp btn). clear Ht Hc. revert Hnone Hp Hh.
    unfold chord_held, press_recorded. destruct btn; by_cases_on s.
Qed.

Lemma release_edge_keeps btn t ck : keeps_well_formed (release_edge btn t ck).
Proof.
  intros s Hs. unfold release_edge.
  destruct (sel (press_time s) btn) as [p|] eqn:Hp.
  - cbv zeta. rewrite and_then_eq. cbn [fst snd].
    destruct Hs as [Htr _].
    apply (button_up_tracks btn) in Htr.
    apply (rearm_chord_tracks ck) in Htr.
    apply classify_pulse_keeps. exact Htr.
  - apply orphan_release_keeps; assumption.
Qed.

Lemma process_edge_keeps e ck : keeps_well_formed (process_edge e ck).
Proof.
  destruct e as [[[btn [|]] t]|]; cbn [process_edge].
  - apply press_edge_keeps.
  - apply release_edge_keeps.
  - apply skip_keeps.
Qed.

Lemma finalize_btn_keeps now2 b0 : keeps_well_formed (finalize_btn now2 b0).
Proof.
  intros s (Hp & Ht & Hc & Hh)%well_formed_elim.
  apply well_formed_intro.
  - intros b. specialize (Hp b). clear Ht Hc Hh. revert Hp.
    unfold finalize_btn, decide, press_recorded. destruct b0, b; by_cases_on s.
  - intros b. specialize (Ht b). clear Hp Hc Hh. revert Ht.
    unfold finalize_btn, decide, tally_has_deadline.
    destruct b0, b; by_cases_on s.
  - clear Hp Ht Hh. revert Hc.
    unfold finalize_btn, decide, chord_disarmed. destruct b0; by_cases_on s.
  - clear Hp Ht Hc. revert Hh.
    unfold finalize_btn, decide, chord_held. destruct b0; by_cases_on s.
Qed.

Lemma chord_timeout_keeps now : keeps_well_formed (chord_timeout now).
Proof.
  intros s (Hp & Ht & Hc & Hh)%well_formed_elim.
  apply well_formed_intro.
  - intros b. specialize (Hp b). clear Ht Hc Hh. revert Hp.
    unfold chord_timeout, press_recorded. destruct b; by_cases_on s.
  - intros b. specialize (Ht b). clear Hp Hc Hh. revert Ht.
    unfold chord_timeout, tally_has_deadline. destruct b; by_cases_on s.
  - clear Hp Ht Hh. revert Hc.
    unfold chord_timeout, chord_disarmed, truthy. by_cases_on s.
  - clear Hp Ht Hc. revert Hh.
    unfold chord_timeout, chord_held, truthy. by_cases_on s.
Qed.

Lemma set_resync_keeps r s : well_formed s → well_formed (set_resync r s).
Proof. intros Hs. exact Hs. Qed.

Lemma set_last_synth_time_keeps b v s :
  well_formed s → well_formed (set_last_synth_time b v s).
Proof. intros Hs. exact Hs. Qed.

Lemma syn_press_keeps btn now_mon : keeps_well_formed (syn_press btn now_mon).
Proof.
  intros s Hs.
  destruct (syn_press_as_real btn now_mon (at_time now_mon) s eq_refl)
    as (-> & _).
  apply set_last_synth_time_keeps, press_edge_keeps, Hs.
Qed.

Lemma resync_press_keeps raw now_mon btn :
  keeps_well_formed (resync_press raw now_mon btn).
Proof.
  intros s Hs. unfold resync_press.
  destruct (_ && _ && _); [apply syn_press_keeps|]; exact Hs.
Qed.

Lemma resync_release_keeps raw now_mon ck btn :
  keeps_well_formed (resync_release raw now_mon ck btn).
Proof.
  intros s Hs. unfold resync_release.
  destruct (negb (sel raw btn) && sel (down s) btn) eqn:Hgo;
    [|exact Hs].
  destruct (can_synthesize now_mon s btn); [|exact Hs]. cbn [andb].
  apply andb_prop in Hgo as [_ Hdown].
  assert (Hp : ∃ p, sel (press_time s) btn = Some p).
  { destruct (well_formed_elim s Hs) as (Hrec & _). specialize (Hrec btn).
    unfold press_recorded in Hrec.
    destruct (sel (press_time s) btn); [eauto|congruence]. }
  destruct Hp as [p Hp].
  destruct (syn_release_as_real btn now_mon ck s p Hp) as (-> & _).
  apply set_last_synth_time_keeps, release_edge_keeps, Hs.
Qed.

Lemma resync_step_keeps i : keeps_well_formed (resync_step i).
Proof.
  intros s Hs. unfold resync_step.
  apply and_then_keeps;
    [apply and_then_keeps;
       [apply resync_press_keeps|apply resync_release_keeps]..|].
  apply set_resync_keeps, Hs.
Qed.

Lemma loop_body_keeps i : keeps_well_formed (loop_body i).
Proof.
  unfold loop_body.
  apply and_then_keeps; [apply process_edge_keeps|].
  apply and_then_keeps;
    [apply and_then_keeps; apply finalize_btn_keeps|].
  apply and_then_keeps; [apply chord_timeout_keeps|apply resync_step_keeps].
Qed.

(** X1: in every run of the loop from its initial state the variables stay
    consistent: a button is believed down exactly when its press time is
    recorded; a tally is at least one exactly when a decision deadline is
    set and zero otherwise; while a chord is pending, detection is disarmed,
    the detection time is recorded and at least one button is still down. *)
Theorem run_keeps_well_formed (ticks : list Tick) :
  well_formed (fst (run ticks initial)).
Proof.
  assert (Hrun : ∀ ticks, keeps_well_formed (run ticks)).
  { clear ticks. induction ticks as [|i ticks IH]; cbn [run].
    - apply skip_keeps.
    - apply and_then_keeps; [apply loop_body_keeps|exact IH]. }
  apply Hrun. repeat split; cbn; discriminate.
Qed.

End Consistency.

(** ** Which step posts which gesture *)

Section Decisions.

Lemma posted_classify_pulse btn t pulse_ms ck s :
  List.filter is_tap_family
    (posted (snd (classify_pulse btn t pulse_ms ck s))) = [].
Proof.
  unfold classify_pulse. split_ifs; try destruct btn; split_ifs; reflexivity.
Qed.

Lemma posted_rearm_chord ck s :
  List.filter is_tap_family (posted (snd (rearm_chord ck s))) = [].
Proof. unfold rearm_chord. split_ifs; reflexivity. Qed.

Lemma process_edge_posts_no_tap e ck s :
  List.filter is_tap_family (posted (snd (process_edge e ck s))) = [].
Proof.
  destruct e as [[[btn [|]] t]|]; cbn [process_edge]; [reflexivity| |reflexivity].
  unfold release_edge. destruct (sel (press_time s) btn); [|reflexivity].
  cbv zeta. rewrite and_then_eq. cbn [fst snd].
  rewrite posted_release, posted_app, List.filter_app.
  rewrite posted_rearm_chord, posted_classify_pulse. reflexivity.
Qed.

Lemma resync_btn_posts_no_tap raw now_mon ck btn s :
  List.filter is_tap_family (posted (snd (resync_btn raw now_mon ck btn s))) = [].
Proof.
  unfold resync_btn. rewrite and_then_eq. cbn [fst snd].
  rewrite posted_app, List.filter_app.
  assert (H1 : ∀ s', List.filter is_tap_family
                       (posted (snd (resync_press raw now_mon btn s'))) = []).
  { intros s'. unfold resync_press. destruct (_ && _ && _); reflexivity. }
  assert (H2 : ∀ s', List.filter is_tap_family
                       (posted (snd (resync_release raw now_mon ck btn s'))) = []).
  { intros s'. unfold resync_release. destruct (_ && _ && _); [|reflexivity].
    unfold syn_release. cbv zeta. rewrite and_then_eq. cbn [fst snd].
    rewrite posted_syn_release, posted_app, List.filter_app.
    rewrite syn_rearm_chord_same, syn_classify_pulse_same.
    rewrite posted_rearm_chord, posted_classify_pulse. reflexivity. }
  rewrite H1, H2. reflexivity.
Qed.

Lemma finalize_btn_posts_taps_only now2 b s :
  List.filter is_chord_or_hold (posted (snd (finalize_btn now2 b s))) = [].
Proof.
  unfold finalize_btn, decide.
  destruct (sel (decide_at s) b); split_ifs; reflexivity.
Qed.

(** X2: a [Tap], [Double] or [FiveTap] is only ever posted by the decision
    step of an iteration: the edge taken from the queue, the chord timeout
    and the resync block post none (only [Chord] and [Hold] come from
    them), and the decision step posts no [Chord] and no [Hold]. *)
Theorem taps_come_from_decisions (i : Tick) (s : Monitor) :
  List.filter is_tap_family (posted (snd (process_edge (edge i) (ck_edge i) s)))
    = [] ∧
  posted (snd (chord_timeout (ck_timeout i) s)) = [] ∧
  List.filter is_tap_family (posted (snd (resync_step i s))) = [] ∧
  List.filter is_chord_or_hold (posted (snd (finalize (now2 i) s))) = [] ∧
  List.filter is_tap_family (posted (snd (loop_body i s))) =
    List.filter is_tap_family
      (posted (snd (finalize (now2 i)
                      (fst (process_edge (edge i) (ck_edge i) s))))).
Proof.
  assert (Hto : ∀ s', posted (snd (chord_timeout (ck_timeout i) s')) = []).
  { intros s'. unfold chord_timeout.
    destruct (chord_detect_time s'); split_ifs; reflexivity. }
  assert (Hrs : ∀ s', List.filter is_tap_family
                        (posted (snd (resync_step i s'))) = []).
  { intros s'. unfold resync_step. rewrite and_then_eq. cbn [fst snd].
    rewrite posted_app, List.filter_app, !resync_btn_posts_no_tap.
    reflexivity. }
  split; [apply process_edge_posts_no_tap|].
  split; [apply Hto|]. split; [apply Hrs|].
  split.
  - unfold finalize. rewrite and_then_eq. cbn [fst snd].
    rewrite posted_app, List.filter_app, !finalize_btn_posts_taps_only.
    reflexivity.
  - unfold loop_body. rewrite !and_then_eq. cbn [fst snd].
    rewrite !posted_app, !List.filter_app.
    rewrite process_edge_posts_no_tap, Hto, Hrs, !app_nil_r. reflexivity.
Qed.

(** X3: the decision of one button, on consistent variables. Nothing
    happens while no deadline is set or the deadline is still ahead. When
    the deadline has passed, the tally and the deadline are cleared; exactly
    one gesture is posted, [Tap] for a tally of one, [Double] for two to
    four, [FiveTap] for five or more (never none), unless a chord was
    resolved less than 750ms before, in which case nothing is posted. *)
Theorem decision_by_tally (now2 : Z) (b : Btn) (s : Monitor) :
  tally_has_deadline s b →
  match sel (decide_at s) b with
  | None => finalize_btn now2 b s = (s, [])
  | Some d =>
      if now2 <? d then finalize_btn now2 b s = (s, [])
      else
        sel (tap_count (fst (finalize_btn now2 b s))) b = 0 ∧
        sel (decide_at (fst (finalize_btn now2 b s))) b = None ∧
        snd (finalize_btn now2 b s) =
          if now2 - last_chord_time s <? CHORD_TAP_SUPPRESS_WINDOW then []
          else [Post (gesture_of b (sel (tap_count s) b))]
  end.
Proof.
  unfold tally_has_deadline, finalize_btn, decide, gesture_of.
  destruct (sel (decide_at s) b) as [d|] eqn:Hd; [|reflexivity].
  intros Hn.
  destruct (Z.ltb_spec now2 d) as [Hlt|Hge].
  - destruct (Z.leb_spec d now2); [lia|reflexivity].
  - destruct (Z.leb_spec d now2); [|lia].
    destruct (now2 - last_chord_time s <? CHORD_TAP_SUPPRESS_WINDOW).
    + cbn. rewrite !sel_upd_same. repeat split.
    + destruct (Z.leb_spec 5 (sel (tap_count s) b));
        destruct (Z.leb_spec 2 (sel (tap_count s) b));
        destruct (Z.eqb_spec (sel (tap_count s) b) 1);
        try lia; destruct b; cbn; repeat split.
Qed.

End Decisions.

Lemma decision_by_tally_witness :
  snd (finalize_btn 3000 B1
         (initial |> set_tap_count (upd B1 5)
                  |> set_decide_at (upd B1 (Some 2900))))
  = [Post (FiveTap B1)].
Proof.
  pose proof (decision_by_tally 3000 B1
                (initial |> set_tap_count (upd B1 5)
                         |> set_decide_at (upd B1 (Some 2900)))) as Hd.
  destruct Hd as (_ & _ & Hposted).
  - cbn. lia.
  - exact Hposted.
Defined.

(** ** Counting taps *)

Section TapCount.

Lemma in_phase_set_resync b L S ph r s :
  in_phase b L S ph s → in_phase b L S ph (set_resync r s).
Proof. destruct ph; intros H; exact H. Qed.

Lemma Btn_eqb_eq a b : Btn_eqb a b = true → a = b.
Proof. destruct a, b; cbn; congruence. Qed.

(** The edge of an iteration the tracker accepts takes the monitor to the
    next phase and posts nothing, and the deadline is not reached in the
    decision step. *)
Lemma process_edge_phase b L S ph ph' i s :
  in_phase b L S ph s → tap_next b L S ph i = Some ph' →
  in_phase b L S ph' (fst (process_edge (edge i) (ck_edge i) s)) ∧
  posted (snd (process_edge (edge i) (ck_edge i) s)) = [] ∧
  not_due (deadline ph') (now2 i) = true.
Proof.
  intros (Ho & Hpend & Hdo & HL & HS & Hph) Hnext.
  unfold tap_next in Hnext.
  destruct ph as [k dl|k dl p], (edge i) as [[[b' [|]] t]|];
    try discriminate; cbn [process_edge].
  - destruct (Btn_eqb b' b) eqn:Hb; [|discriminate].
    apply Btn_eqb_eq in Hb. subst b'. cbn [andb] in Hnext.
    destruct (not_due dl (now2 i)) eqn:Hnd; [|discriminate].
    injection Hnext as <-. destruct Hph as (Hd & Hk & Hdl).
    unfold press_edge, in_phase. open_monitor s.
    destruct b; cbn in *; subst; cbn; auto 10.
  - destruct (not_due dl (now2 i)) eqn:Hnd; [|discriminate].
    injection Hnext as <-. cbn [fst snd deadline]. unfold in_phase. auto 10.
  - destruct (Btn_eqb b' b) eqn:Hb; [|discriminate].
    apply Btn_eqb_eq in Hb. subst b'. cbn [andb] in Hnext.
    destruct (MIN_PULSE_MS <=? t - p) eqn:Hmin; [|discriminate].
    destruct (t - p <? HOLD_MS_BY_BTN b) eqn:Hhold; [|discriminate].
    destruct (CHORD_TAP_SUPPRESS_WINDOW <=? ck_recent (ck_edge i) - L)
      eqn:Hrec; [|discriminate].
    destruct (S <=? ck_tally (ck_edge i)) eqn:Hsup; [|discriminate].
    cbn [andb] in Hnext.
    destruct (now2 i <? t + TAP_DECISION) eqn:Hnow'; [|discriminate].
    all: injection Hnext as <-. all: destruct Hph as (Hp & Hk & Hdl).
    all: unfold release_edge; rewrite Hp; cbv zeta.
    all: assert (Hlt : (t <? p) = false)
      by (apply Z.ltb_ge; apply Z.leb_le in Hmin; unfold MIN_PULSE_MS in Hmin; lia).
    all: rewrite Hlt, and_then_eq; cbn [fst snd]; rewrite posted_release.
    all: assert (Hmin' : (t - p <? MIN_PULSE_MS) = false)
      by (apply Z.ltb_ge; apply Z.leb_le in Hmin; lia).
    all: assert (Hhold' : (HOLD_MS_BY_BTN b <=? t - p) = false)
      by (apply Z.leb_gt; apply Z.ltb_lt in Hhold; lia).
    all: assert (Hrec' : (ck_recent (ck_edge i) - L <? CHORD_TAP_SUPPRESS_WINDOW) = false)
      by (apply Z.ltb_ge; apply Z.leb_le in Hrec; lia).
    all: unfold rearm_chord, classify_pulse, chord_recent, in_phase, deadline, not_due.
    all: open_monitor s; destruct b; cbn in *; subst; cbn.
    all: rewrite ?Hmin', ?Hhold', ?Hrec', ?Hsup; cbn.
    all: rewrite ?Hmin', ?Hhold', ?Hrec', ?Hsup; cbn; auto 10.
  - destruct (not_due dl (now2 i)) eqn:Hnd; [|discriminate].
    injection Hnext as <-. cbn [fst snd deadline]. unfold in_phase. auto 10.
Qed.

(** An iteration the tracker accepts leaves the monitor in the next phase
    and posts nothing. *)
Lemma tap_next_sound b L S ph ph' i s :
  in_phase b L S ph s → tap_next b L S ph i = Some ph' →
  in_phase b L S ph' (fst (classify i s)) ∧
  posted (snd (classify i s)) = [].
Proof.
  intros Hin Hnext.
  destruct (process_edge_phase _ _ _ _ _ _ _ Hin Hnext) as (Hin' & Hpost & Hnd).
  unfold classify. rewrite !and_then_eq. cbn [fst snd].
  set (s1 := fst (process_edge (edge i) (ck_edge i) s)) in *.
  assert (Hfin : finalize (now2 i) s1 = (s1, [])).
  { apply finalize_not_due. intros c.
    destruct Hin' as (_ & _ & Hdo & _ & _ & Hph).
    assert (Hc : c = b ∨ c = other b) by (destruct b, c; auto).
    destruct Hc as [->| ->].
    - destruct ph'; destruct Hph as (_ & _ & ->); exact Hnd.
    - rewrite Hdo. reflexivity. }
  rewrite Hfin. cbn [fst snd].
  rewrite chord_timeout_not_pending by apply Hin'.
  cbn [fst snd]. rewrite !app_nil_r. auto.
Qed.

Lemma tap_next_ok b L S ph ph' i :
  phase_ok ph → tap_next b L S ph i = Some ph' → phase_ok ph'.
Proof.
  unfold tap_next, phase_ok.
  destruct ph as [k dl|k dl p], (edge i) as [[[b' [|]] t]|]; intros Hok;
    split_ifs; intros [= <-]; try exact Hok; destruct dl; lia.
Qed.

Lemma tap_next_releases b L S ph ph' i :
  tap_next b L S ph i = Some ph' →
  match ph' with Up k' _ | Down k' _ _ => k' end =
  match ph with Up k _ | Down k _ _ => k end
  + (if is_release i then 1 else 0).
Proof.
  unfold tap_next, is_release.
  destruct ph as [k dl|k dl p], (edge i) as [[[b' [|]] t]|];
    split_ifs; intros [= <-]; lia.
Qed.

(** A run the tracker accepts, the resync block silent. *)
Lemma tap_track_sound b L S ticks : ∀ ph ph' s,
  in_phase b L S ph s → phase_ok ph →
  tap_track b L S ph ticks = Some ph' →
  syn_edges (snd (run ticks s)) = [] →
  in_phase b L S ph' (fst (run ticks s)) ∧ phase_ok ph' ∧
  posted (snd (run ticks s)) = [] ∧
  match ph' with Up k' _ | Down k' _ _ => k' end =
  match ph with Up k _ | Down k _ _ => k end
  + Z.of_nat (length (List.filter is_release ticks)).
Proof.
  induction ticks as [|i rest IH]; intros ph ph' s Hin Hok Htrack Hsyn.
  - injection Htrack as <-.
    split; [exact Hin|split; [exact Hok|split; [reflexivity|]]].
    destruct ph; cbn; lia.
  - cbn [tap_track] in Htrack.
    destruct (tap_next b L S ph i) as [ph1|] eqn:Hnext; [|discriminate].
    cbn [run] in *. rewrite and_then_eq in *. cbn [fst snd] in *.
    rewrite syn_edges_app in Hsyn. apply app_eq_nil in Hsyn as [Hs1 Hs2].
    destruct (loop_body_silent _ _ Hs1) as [r Hbody].
    rewrite Hbody in *. cbn [fst snd] in *.
    destruct (tap_next_sound _ _ _ _ _ _ _ Hin Hnext) as [Hin1 Hp1].
    destruct (IH ph1 ph' _ (in_phase_set_resync _ _ _ _ r _ Hin1)
                (tap_next_ok _ _ _ _ _ _ Hok Hnext) Htrack Hs2)
      as (Hin' & Hok' & Hp' & Hcount).
    rewrite posted_app, Hp1, Hp'.
    split; [exact Hin'|split; [exact Hok'|split; [reflexivity|]]].
    rewrite Hcount, (tap_next_releases _ _ _ _ _ _ Hnext).
    cbn [List.filter]. destruct (is_release i); cbn [length]; lia.
Qed.

(** X4: taps are counted and decided once. From a monitor with button [b]
    up and nothing tallied, the other button up, no chord pending and no
    deadline set, take a run made of presses of [b] and releases after
    pulses of at least 20ms and less than the hold threshold, each outside
    the 750ms after the last chord and past the tap cooldown, with every
    decision step before the deadline in force, the resync block staying
    silent. Nothing is posted during the run. If at least one pulse was
    released, the first idle iteration whose decision step reaches the
    deadline, 750ms or more after the last chord, posts exactly one event:
    FiveTap for five pulses or more, Double for two to four, Tap for one;
    and the tally is back to zero with no deadline. *)
Theorem taps_decided_by_count (b : Btn) (L S : Z) (s0 : Monitor)
    (ticks : list Tick) (fin : Tick) (k dl : Z) :
  in_phase b L S (Up 0 None) s0 →
  tap_track b L S (Up 0 None) ticks = Some (Up k (Some dl)) →
  idle fin → dl ≤ now2 fin → CHORD_TAP_SUPPRESS_WINDOW ≤ now2 fin - L →
  syn_edges (snd (run (ticks ++ [fin]) s0)) = [] →
  k = Z.of_nat (length (List.filter is_release ticks)) ∧
  posted (snd (run ticks s0)) = [] ∧
  posted (snd (run (ticks ++ [fin]) s0)) = [gesture_of b k] ∧
  sel (tap_count (fst (run (ticks ++ [fin]) s0))) b = 0 ∧
  sel (decide_at (fst (run (ticks ++ [fin]) s0))) b = None.
Proof.
  intros Hin Htrack Hidle Hdue Hwin Hsyn.
  rewrite run_app, and_then_eq in *. cbn [fst snd] in *.
  rewrite syn_edges_app in Hsyn. apply app_eq_nil in Hsyn as [Hs1 Hs2].
  destruct (tap_track_sound _ _ _ _ _ _ _ Hin eq_refl Htrack Hs1)
    as (Hin' & Hok & Hp & Hcount).
  set (s := fst (run ticks s0)) in *.
  cbn [run] in *. rewrite and_then_eq in *. cbn [fst snd] in *.
  rewrite app_nil_r in *.
  destruct (loop_body_silent _ _ Hs2) as [r Hbody]. rewrite Hbody.
  cbn [fst snd]. rewrite posted_app, Hp. cbn [app].
  split; [lia|]. split; [reflexivity|].
  destruct Hin' as (Ho & Hpend & Hdo & HL & HS & Hd & Hk & Hdl).
  cbn in Hok.
  unfold classify. rewrite !and_then_eq. rewrite Hidle.
  cbn [process_edge fst snd app].
  assert (Hfin : fst (finalize (now2 fin) s) =
                 s |> set_tap_count (upd b 0) |> set_decide_at (upd b None)
               ∧ snd (finalize (now2 fin) s) = [Post (gesture_of b k)]).
  { unfold finalize, finalize_btn, decide, gesture_of.
    rewrite and_then_eq. clear Hbody Hs1 Hs2 Hp Htrack Hin.
    assert (Hb1 : (now2 fin - L <? CHORD_TAP_SUPPRESS_WINDOW) = false)
      by (apply Z.ltb_ge; lia).
    assert (Hb2 : (dl <=? now2 fin) = true) by (apply Z.leb_le; lia).
    clear Hwin Hdue.
    clearbody s. open_monitor s. destruct b; cbn in *.
    all: rewrite ?Hk, ?Hdl, ?Hdo, ?HL, ?Hb2, ?Hb1; cbn.
    all: rewrite ?Hk, ?Hdl, ?Hdo, ?HL, ?Hb2, ?Hb1; cbn.
    all: destruct (Z.leb_spec 5 k), (Z.leb_spec 2 k), (Z.eqb_spec k 1);
      try lia; cbn; auto. }
  destruct Hfin as [Hf1 Hf2]. rewrite Hf1, Hf2.
  rewrite chord_timeout_not_pending by (clearbody s; open_monitor s; exact Hpend).
  cbn [fst snd]. split; [reflexivity|].
  clearbody s. open_monitor s. destruct b; cbn; auto.
Qed.

End TapCount.

Lemma taps_decided_by_count_witness :
  posted (snd (run (five_taps ++ [decision_tick]) initial)) = [FiveTap B1].
Proof.
  apply (taps_decided_by_count B1 0 0 initial five_taps decision_tick 5 2150).
  - repeat split; reflexivity.
  - vm_compute. reflexivity.
  - reflexivity.
  - vm_compute. discriminate.
  - vm_compute. discriminate.
  - vm_compute. reflexivity.
Defined.

(** ** The resync block *)

Section ResyncHeals.

Lemma rearm_chord_down_resync ck s :
  down (fst (rearm_chord ck s)) = down s ∧
  resync (fst (rearm_chord ck s)) = resync s.
Proof. unfold rearm_chord. split_ifs; split; reflexivity. Qed.

Lemma classify_pulse_down_resync btn t pulse_ms ck s :
  down (fst (classify_pulse btn t pulse_ms ck s)) = down s ∧
  resync (fst (classify_pulse btn t pulse_ms ck s)) = resync s.
Proof.
  unfold classify_pulse. split_ifs; try destruct btn; split_ifs;
    split; reflexivity.
Qed.

Lemma syn_release_down_resync btn now_mon ck s :
  down (fst (syn_release btn now_mon ck s)) = upd btn false (down s) ∧
  resync (fst (syn_release btn now_mon ck s)) =
  resync (set_last_synth_time btn now_mon s).
Proof.
  unfold syn_release. cbv zeta. rewrite and_then_eq. cbn [fst snd].
  rewrite syn_rearm_chord_same, syn_classify_pulse_same.
  destruct (classify_pulse_down_resync btn now_mon
              (Z.max 0 (now_mon - match sel (press_time s) btn with
                                  | Some p => p | None => now_mon end)) ck
              (fst (rearm_chord ck (s |> set_down (upd btn false)
                                      |> set_last_synth_time btn now_mon))))
    as [Hd Hr].
  destruct (rearm_chord_down_resync ck
              (s |> set_down (upd btn false)
                 |> set_last_synth_time btn now_mon)) as [Hd' Hr'].
  split.
  - change (down (set_press_time ?f ?x)) with (down x).
    rewrite Hd, Hd'. reflexivity.
  - change (resync (set_press_time ?f ?x)) with (resync x).
    rewrite Hr, Hr'. reflexivity.
Qed.

Lemma syn_press_down_resync btn now_mon s :
  down (fst (syn_press btn now_mon s)) = upd btn true (down s) ∧
  resync (fst (syn_press btn now_mon s)) =
  resync (set_last_synth_time btn now_mon s).
Proof.
  unfold syn_press. cbv zeta. cbn [fst].
  destruct (sel _ (other btn)); [|split; reflexivity].
  destruct (sel _ (other btn)); [|split; reflexivity].
  destruct (_ && _); split; reflexivity.
Qed.

Lemma in_cooldown btn now_mon now' s :
  now' - now_mon < RESYNC_COOLDOWN_MS →
  can_synthesize now' (set_last_synth_time btn now_mon s) btn = false.
Proof.
  intros Hlt. unfold can_synthesize, set_last_synth_time.
  open_monitor s. destruct rs as [[lr ss [ls1 ls2]]|]; [|reflexivity].
  destruct btn; cbn; apply andb_false_iff; right; apply Z.leb_gt; lia.
Qed.

Lemma can_synthesize_resync now_mon btn s s' :
  resync s = resync s' →
  can_synthesize now_mon s btn = can_synthesize now_mon s' btn.
Proof. unfold can_synthesize. intros ->. reflexivity. Qed.

(** X5: the resync block brings the believed state of a button in line
    with the raw level whenever it is allowed to synthesize (the raw level
    unchanged for 30ms and no synthesized edge of that button in the last
    120ms); when it is not allowed it changes nothing. It synthesizes at
    most one edge per button in an iteration, and after a synthesized edge
    it is not allowed another for that button until 120ms have passed. *)
Theorem resync_btn_heals (raw : PerBtn bool) (now_mon : Z) (ck : Clock)
    (btn : Btn) (s : Monitor) :
  let r := resync_btn raw now_mon ck btn s in
  (if can_synthesize now_mon s btn
   then sel (down (fst r)) btn = sel raw btn
   else r = (s, [])) ∧
  (syn_edges (snd r) = [] ∨
   syn_edges (snd r) = [(btn, sel raw btn)] ∧
   ∀ now', now' - now_mon < RESYNC_COOLDOWN_MS →
           can_synthesize now' (fst r) btn = false).
Proof.
  cbv zeta. unfold resync_btn. rewrite and_then_eq.
  unfold resync_press.
  destruct (can_synthesize now_mon s btn) eqn:Hcan.
  - destruct (sel raw btn) eqn:Hraw, (sel (down s) btn) eqn:Hdn;
      cbn [andb negb fst snd app].
    + unfold resync_release. rewrite Hraw. cbn [andb negb fst snd].
      split; [exact Hdn|left; reflexivity].
    + destruct (syn_press_down_resync btn now_mon s) as [Hd Hr].
      assert (Hno : can_synthesize now_mon (fst (syn_press btn now_mon s)) btn
                    = false).
      { rewrite (can_synthesize_resync _ _ _ _ Hr).
        apply in_cooldown. unfold RESYNC_COOLDOWN_MS. lia. }
      unfold resync_release. rewrite Hraw. cbn [negb andb fst snd].
      rewrite app_nil_r, Hd. split.
      * destruct btn, (down s) as [[|] [|]]; reflexivity.
      * right. split; [reflexivity|]. intros now' Hlt.
        rewrite (can_synthesize_resync _ _ _ _ Hr).
        apply in_cooldown, Hlt.
    + unfold resync_release. rewrite Hraw, Hdn, Hcan. cbn [negb andb fst snd app].
      destruct (syn_release_down_resync btn now_mon ck s) as [Hd Hr].
      rewrite syn_release_edges, Hd. split.
      * destruct btn, (down s) as [[|] [|]]; reflexivity.
      * right. split; [reflexivity|]. intros now' Hlt.
        rewrite (can_synthesize_resync _ _ _ _ Hr).
        apply in_cooldown, Hlt.
    + unfold resync_release. rewrite Hraw, Hdn. cbn [negb andb fst snd app].
      split; [exact Hdn|left; reflexivity].
  - rewrite !andb_false_r. cbn [fst snd app].
    unfold resync_release. rewrite Hcan, !andb_false_r.
    split; [reflexivity|left; reflexivity].
Qed.

End ResyncHeals.

(** ** What a run can put out *)

Section Outputs.

Variable P : list Out → Prop.
Hypothesis P_nil : P [].
Hypothesis P_app : ∀ a b, P a → P b → P (a ++ b).
Hypothesis P_edge : ∀ e ck s, P (snd (process_edge e ck s)).
Hypothesis P_finalize : ∀ now2 b s, P (snd (finalize_btn now2 b s)).
Hypothesis P_syn_press : ∀ btn now_mon s, P (snd (syn_press btn now_mon s)).
Hypothesis P_syn_release :
  ∀ btn now_mon ck s, P (snd (syn_release btn now_mon ck s)).

Lemma and_then_out (f g : Monitor → Monitor * list Out) :
  (∀ s, P (snd (f s))) → (∀ s, P (snd (g s))) →
  ∀ s, P (snd (and_then f g s)).
Proof. intros Hf Hg s. rewrite and_then_eq. apply P_app; auto. Qed.

Lemma resync_btn_out raw now_mon ck btn s :
  P (snd (resync_btn raw now_mon ck btn s)).
Proof.
  revert s. apply and_then_out; intros s.
  - unfold resync_press. destruct (_ && _ && _); auto.
  - unfold resync_release. destruct (_ && _ && _); auto.
Qed.

Lemma loop_body_out i s : P (snd (loop_body i s)).
Proof.
  revert s. unfold loop_body.
  apply and_then_out; [auto|]. apply and_then_out.
  { unfold finalize. apply and_then_out; auto. }
  apply and_then_out.
  { intros s. unfold chord_timeout.
    destruct (chord_detect_time s); split_ifs; exact P_nil. }
  intros s. unfold resync_step. cbv zeta.
  apply and_then_out; intros s'; apply resync_btn_out.
Qed.

Lemma run_out ticks : ∀ s, P (snd (run ticks s)).
Proof.
  induction ticks as [|i rest IH]; intros s; [exact P_nil|].
  cbn [run]. apply and_then_out; [apply loop_body_out|exact IH].
Qed.

End Outputs.

Section Pulses.

Lemma pulses_of_app b (x y : list Out) :
  pulses_of b (x ++ y) = pulses_of b x ++ pulses_of b y.
Proof. apply omap_app. Qed.

Lemma pulses_of_release b d o :
  pulses_of b (LogRelease b d :: o) = d :: pulses_of b o.
Proof. destruct b; reflexivity. Qed.

Lemma pulses_of_syn_release b d o :
  pulses_of b (LogSynRelease b d :: o) = d :: pulses_of b o.
Proof. destruct b; reflexivity. Qed.

Lemma hold_backed_nil : hold_backed [].
Proof. intros b Hin. cbn in Hin. apply elem_of_nil in Hin as []. Qed.

Lemma hold_backed_app x y : hold_backed x → hold_backed y → hold_backed (x ++ y).
Proof.
  intros Hx Hy b. rewrite posted_app, pulses_of_app.
  intros [Hin|Hin]%elem_of_app.
  - destruct (Hx b Hin) as (d & Hd & Hle). exists d.
    split; [apply elem_of_app; auto|exact Hle].
  - destruct (Hy b Hin) as (d & Hd & Hle). exists d.
    split; [apply elem_of_app; auto|exact Hle].
Qed.

Lemma no_hold_backed o : (∀ b, Hold b ∉ posted o) → hold_backed o.
Proof. intros Hno b Hin. destruct (Hno b Hin). Qed.

(** The events of one release: at most a chord, then at most a hold of the
    released button, and this only for a pulse that reaches its
    threshold. *)
Lemma release_posts btn t pulse_ms ck s :
  let o := snd (and_then (rearm_chord ck) (classify_pulse btn t pulse_ms ck) s) in
  (posted o = [] ∨ posted o = [Chord]) ∨
  HOLD_MS_BY_BTN btn ≤ pulse_ms ∧
  (posted o = [Hold btn] ∨ posted o = [Chord; Hold btn]).
Proof.
  cbv zeta. rewrite and_then_eq. cbn [fst snd]. rewrite posted_app.
  assert (H1 : posted (snd (rearm_chord ck s)) = [] ∨
               posted (snd (rearm_chord ck s)) = [Chord])
    by (unfold rearm_chord; split_ifs; cbn; auto).
  assert (H2 : ∀ s', posted (snd (classify_pulse btn t pulse_ms ck s')) = [] ∨
                     HOLD_MS_BY_BTN btn ≤ pulse_ms ∧
                     posted (snd (classify_pulse btn t pulse_ms ck s')) = [Hold btn]).
  { intros s'. unfold classify_pulse.
    destruct (pulse_ms <? MIN_PULSE_MS); [auto|].
    destruct (Z.leb_spec (HOLD_MS_BY_BTN btn) pulse_ms).
    - destruct btn; split_ifs; cbn; auto.
    - split_ifs; cbn; auto. }
  destruct H1 as [-> | ->], (H2 (fst (rearm_chord ck s))) as [-> | [Hle ->]];
    cbn; auto.
Qed.

Lemma hold_backed_release b d o :
  (posted o = [] ∨ posted o = [Chord]) ∨
  HOLD_MS_BY_BTN b ≤ d ∧ (posted o = [Hold b] ∨ posted o = [Chord; Hold b]) →
  hold_backed (LogRelease b d :: o) ∧ hold_backed (LogSynRelease b d :: o).
Proof.
  intros [[H|H]|[Hle [H|H]]]; split; intros c;
    rewrite ?posted_release, ?posted_syn_release, H; intros Hin.
  all: repeat (apply elem_of_cons in Hin as [Hin|Hin]; try discriminate).
  all: try (apply elem_of_nil in Hin as []).
  all: injection Hin as ->; exists d; split; [|exact Hle].
  all: rewrite ?pulses_of_release, ?pulses_of_syn_release; apply elem_of_cons; auto.
Qed.

Lemma hold_backed_edge e ck s : hold_backed (snd (process_edge e ck s)).
Proof.
  destruct e as [[[b [|]] t]|]; cbn [process_edge];
    [apply hold_backed_nil| |apply hold_backed_nil].
  unfold release_edge. destruct (sel (press_time s) b); [|apply hold_backed_nil].
  cbv zeta. cbn [snd]. apply hold_backed_release, release_posts.
Qed.

Lemma hold_backed_syn_release btn now_mon ck s :
  hold_backed (snd (syn_release btn now_mon ck s)).
Proof.
  unfold syn_release. cbv zeta. cbn [snd].
  apply hold_backed_release.
  apply (release_posts btn now_mon _ ck).
Qed.

Lemma hold_backed_finalize now2 b s :
  hold_backed (snd (finalize_btn now2 b s)).
Proof.
  apply no_hold_backed. intros c. unfold finalize_btn, decide.
  destruct (sel (decide_at s) b); split_ifs; cbn;
    intros Hin; repeat (apply elem_of_cons in Hin as [Hin|Hin]; try discriminate);
    apply elem_of_nil in Hin as [].
Qed.

(** X6: no hold without a long pulse. In every run of the loop, from any
    state of its variables, a Hold event of a button is posted only if a
    pulse of that button, measured at a real or a synthesized release, has
    reached the button's hold threshold (800ms for button 1, 3000ms for
    button 2). *)
Theorem hold_needs_long_pulse (ticks : list Tick) (s : Monitor) (b : Btn) :
  Hold b ∈ posted (snd (run ticks s)) →
  ∃ d, d ∈ pulses_of b (snd (run ticks s)) ∧ HOLD_MS_BY_BTN b ≤ d.
Proof.
  revert b. change (hold_backed (snd (run ticks s))).
  apply run_out.
  - apply hold_backed_nil.
  - apply hold_backed_app.
  - apply hold_backed_edge.
  - apply hold_backed_finalize.
  - intros btn now_mon s'. apply no_hold_backed. intros c Hin.
    unfold syn_press in Hin. cbn in Hin. apply elem_of_nil in Hin as [].
  - apply hold_backed_syn_release.
Qed.

(** X8: the cooldown after a hold. A pulse of button [b] that reaches its
    hold threshold leaves the button with no tally and no deadline and sets
    its cooldown to 1500ms after the reading [ck_suppress]; as long as this
    cooldown stands, a shorter pulse of [b] classified at a reading before
    its end changes nothing and posts nothing. *)
Theorem hold_starts_cooldown (b : Btn) (t pulse_ms : Z) (ck : Clock)
    (s : Monitor) (t' pulse_ms' : Z) (ck' : Clock) (s' : Monitor) :
  HOLD_MS_BY_BTN b ≤ pulse_ms →
  let s1 := fst (classify_pulse b t pulse_ms ck s) in
  sel (tap_count s1) b = 0 ∧ sel (decide_at s1) b = None ∧
  sel (tap_suppress_until s1) b = ck_suppress ck + hold_cooldown_sec ∧
  (sel (tap_suppress_until s') b = sel (tap_suppress_until s1) b →
   pulse_ms' < HOLD_MS_BY_BTN b →
   ck_tally ck' < ck_suppress ck + hold_cooldown_sec →
   classify_pulse b t' pulse_ms' ck' s' = (s', [])).
Proof.
  intros Hhold. cbv zeta.
  assert (H1 : (pulse_ms <? MIN_PULSE_MS) = false)
    by (apply Z.ltb_ge; unfold MIN_PULSE_MS; destruct b; cbn in Hhold; lia).
  assert (H2 : (HOLD_MS_BY_BTN b <=? pulse_ms) = true) by (apply Z.leb_le; lia).
  assert (Hs1 : sel (tap_count (fst (classify_pulse b t pulse_ms ck s))) b = 0 ∧
                sel (decide_at (fst (classify_pulse b t pulse_ms ck s))) b = None ∧
                sel (tap_suppress_until (fst (classify_pulse b t pulse_ms ck s))) b
                = ck_suppress ck + hold_cooldown_sec).
  { unfold classify_pulse. rewrite H1, H2. cbv zeta.
    open_monitor s. destruct b; cbn; split_ifs; cbn; auto. }
  destruct Hs1 as (Hc & Hd & Hsu).
  split; [exact Hc|split; [exact Hd|split; [exact Hsu|]]].
  rewrite Hsu. intros Hsame Hshort Hcool. unfold classify_pulse.
  destruct (pulse_ms' <? MIN_PULSE_MS); [reflexivity|].
  destruct (Z.leb_spec (HOLD_MS_BY_BTN b) pulse_ms'); [lia|].
  destruct (_ && _); [|reflexivity].
  rewrite Hsame. destruct (Z.leb_spec (ck_suppress ck + hold_cooldown_sec)
                             (ck_tally ck')); [lia|reflexivity].
Qed.

(** X7: no measured pulse is negative, whatever the time stamps of the
    edges and the readings of the clock: a release stamped before its press
    is measured as a pulse of 0ms. *)
Theorem pulses_never_negative (ticks : list Tick) (s : Monitor) :
  Forall (λ d, 0 ≤ d) (pulses (snd (run ticks s))).
Proof.
  apply (run_out (λ o, Forall (λ d, 0 ≤ d) (pulses o))).
  - constructor.
  - intros a b Ha Hb. rewrite pulses_app. apply Forall_app; auto.
  - intros e ck s'. destruct e as [[[b [|]] t]|]; cbn [process_edge];
      try constructor.
    unfold release_edge. destruct (sel (press_time s') b) as [p|];
      [|constructor].
    cbv zeta. cbn [snd]. rewrite pulses_release. constructor.
    + destruct (Z.ltb_spec t p); lia.
    + rewrite and_then_eq. cbn [snd]. rewrite pulses_app.
      replace (pulses (snd (rearm_chord ck _))) with (@nil Z)
        by (unfold rearm_chord; split_ifs; reflexivity).
      replace (pulses (snd (classify_pulse _ _ _ _ _))) with (@nil Z)
        by (unfold classify_pulse; split_ifs; try destruct b; split_ifs;
            reflexivity).
      constructor.
  - intros now2 b s'. unfold finalize_btn, decide.
    destruct (sel (decide_at s') b); split_ifs; constructor.
  - intros btn now_mon s'. constructor.
  - intros btn now_mon ck s'. unfold syn_release. cbv zeta. cbn [snd].
    rewrite pulses_syn_release. constructor; [lia|].
    rewrite and_then_eq. cbn [snd]. rewrite pulses_app.
    rewrite syn_rearm_chord_same, syn_classify_pulse_same.
    replace (pulses (snd (rearm_chord ck _))) with (@nil Z)
      by (unfold rearm_chord; split_ifs; reflexivity).
    replace (pulses (snd (classify_pulse _ _ _ _ _))) with (@nil Z)
      by (unfold classify_pulse; split_ifs; try destruct btn; split_ifs;
          reflexivity).
    constructor.
Qed.

End Pulses.

Lemma hold_needs_long_pulse_witness :
  ∃ d, d ∈ pulses_of B1 (snd (run long_press initial)) ∧ HOLD_MS_BY_BTN B1 ≤ d.
Proof.
  apply (hold_needs_long_pulse long_press initial B1).
  vm_compute. left.
Defined.

Lemma hold_starts_cooldown_witness :
  classify_pulse B1 2200 50 (at_time 2200)
    (fst (classify_pulse B1 1900 900 (at_time 1900) initial))
  = (fst (classify_pulse B1 1900 900 (at_time 1900) initial), []).
Proof.
  apply (hold_starts_cooldown B1 1900 900 (at_time 1900) initial
           2200 50 (at_time 2200)).
  - vm_compute. discriminate.
  - reflexivity.
  - reflexivity.
  - reflexivity.
Defined.

(** ** The shuffler *)

Section ShufflerFurther.
Import Shuffler ShufflerHistory.
Context {K : Type} `{Countable K}.

Lemma init_cases (its : list K) (window : Z) (ub ab rp mw : Q) :
  init its window ub ab rp mw =
    if bool_decide (its = []) then inl ValueError
    else if (window <? - PY_SSIZE_T_MAX - 1) || (PY_SSIZE_T_MAX <? window)
    then inl OverflowError
    else if window <? 0 then inl ValueError
    else inr (fresh its window ub ab rp mw).
Proof. destruct its; reflexivity. Qed.

(** X9: the constructor raises [ValueError] exactly for an empty pool and,
    on a pool that is not empty, for a negative window that fits a
    [Py_ssize_t]; it raises [OverflowError] exactly for a window that does
    not fit one, the pool not being empty; it raises nothing else. The
    instance it leaves otherwise has both dicts keyed by the pool, every
    tally at zero, every item last picked "long ago", the pick counter at
    zero and an empty history. *)
Theorem init_refuses_or_fresh (its : list K) (window : Z)
    (ub ab rp mw : Q) :
  (init its window ub ab rp mw = inl ValueError ↔
   its = [] ∨ - PY_SSIZE_T_MAX - 1 ≤ window < 0) ∧
  (init its window ub ab rp mw = inl OverflowError ↔
   its ≠ [] ∧ (window < - PY_SSIZE_T_MAX - 1 ∨ PY_SSIZE_T_MAX < window)) ∧
  (∀ e, init its window ub ab rp mw = inl e →
        e = ValueError ∨ e = OverflowError) ∧
  (∀ s, init its window ub ab rp mw = inr s →
        its ≠ [] ∧ 0 ≤ window ≤ PY_SSIZE_T_MAX ∧
        items s = its ∧ keyed s ∧ _pick_counter s = 0 ∧ _recent s = [] ∧
        recent_window s = window ∧
        ∀ i, i ∈ its →
             _plays s !! i = Some 0 ∧ _last_pick_idx s !! i = Some (- 10 ^ 9)).
Proof.
  rewrite init_cases.
  assert (Hmax : 0 ≤ PY_SSIZE_T_MAX) by (unfold PY_SSIZE_T_MAX; lia).
  destruct (bool_decide (its = [])) eqn:Hnil.
  { apply bool_decide_eq_true in Hnil.
    split; [split; auto|]. split; [split; [discriminate|tauto]|].
    split; [intros e [= <-]; auto|discriminate]. }
  apply bool_decide_eq_false in Hnil.
  destruct (Z.ltb_spec window (- PY_SSIZE_T_MAX - 1)) as [Hlo|Hlo];
    [|destruct (Z.ltb_spec PY_SSIZE_T_MAX window) as [Hhi|Hhi]]; cbn [orb].
  1,2: split; [split; [discriminate|intros [?|?]; [tauto|lia]]|];
       (split; [split; auto|]);
       (split; [intros e [= <-]; auto|discriminate]).
  destruct (Z.ltb_spec window 0) as [Hneg|Hpos].
  { split; [split; [auto|reflexivity]|].
    split; [split; [discriminate|intros [_ [?|?]]; lia]|].
    split; [intros e [= <-]; auto|discriminate]. }
  split; [split; [discriminate|intros [?|?]; [tauto|lia]]|].
  split; [split; [discriminate|intros [_ [?|?]]; lia]|].
  split; [discriminate|]. intros s [= <-].
  split; [exact Hnil|]. split; [lia|].
  split; [reflexivity|]. split; [apply fresh_keyed|].
  do 3 (split; [reflexivity|]).
  intros i Hi. cbn [fresh _plays _last_pick_idx].
  assert (Hconst : ∀ (v : Z) (l : list K),
             i ∈ l → (list_to_map ((λ i, (i, v)) <$> l) : gmap K Z) !! i
                      = Some v).
  { intros v l. induction l as [|j l IH]; intros Hin.
    - apply elem_of_nil in Hin as [].
    - cbn. destruct (base.decide (j = i)) as [->|Hne].
      + apply lookup_insert_eq.
      + rewrite lookup_insert_ne by exact Hne.
        apply IH. apply elem_of_cons in Hin as [->|Hin]; [congruence|exact Hin]. }
  split; apply Hconst, Hi.
Qed.





(** *** The history *)

Lemma total_insert (m : gmap K Z) (x : K) (p q : Z) :
  m !! x = Some p →
  map_fold (λ _ p acc, p + acc) 0 (<[x := q]> m) =
  map_fold (λ _ p acc, p + acc) 0 m - p + q.
Proof.
  intros Hx.
  rewrite (map_fold_delete_L (λ _ p acc, p + acc) 0 x p m);
    [|intros; lia|exact Hx].
  rewrite <- (insert_delete_eq m x q).
  rewrite (map_fold_insert_L (λ _ p acc, p + acc) 0 x q (delete x m));
    [lia|intros; lia|apply lookup_delete_eq].
Qed.

Lemma total_zero (m : gmap K Z) :
  (∀ k v, m !! k = Some v → v = 0) →
  map_fold (λ _ p acc, p + acc) 0 m = 0.
Proof.
  apply (map_fold_weak_ind
           (λ r m, (∀ k v, m !! k = Some v → v = 0) → r = 0)).
  - reflexivity.
  - intros i x m' r Hi IH Hall.
    rewrite (Hall i x) by apply lookup_insert_eq.
    rewrite IH; [reflexivity|].
    intros k v Hk. apply (Hall k v).
    rewrite lookup_insert_ne; [exact Hk|]. intros ->. congruence.
Qed.

Lemma const_map_lookup (v : Z) (l : list K) (k : K) (x : Z) :
  (list_to_map ((λ i, (i, v)) <$> l) : gmap K Z) !! k = Some x → x = v.
Proof.
  intros Hk%elem_of_list_to_map_2.
  apply list_elem_of_fmap in Hk as (i & [= _ ->] & _). reflexivity.
Qed.

Lemma deque_append_length (maxlen : Z) (d : list K) (x : K) :
  Z.of_nat (length d) ≤ maxlen →
  Z.of_nat (length (deque_append maxlen d x)) ≤ maxlen.
Proof.
  intros Hlen. unfold deque_append.
  destruct (Z.ltb_spec maxlen (Z.of_nat (length (d ++ [x])))) as [Hfull|Hfit];
    [|exact Hfit].
  destruct d as [|y d]; cbn in *; [lia|].
  rewrite length_app. cbn. lia.
Qed.

Lemma deque_append_elem (maxlen : Z) (d : list K) (x k : K) :
  k ∈ deque_append maxlen d x → k ∈ d ∨ k = x.
Proof.
  unfold deque_append. intros Hin.
  assert (Hin' : k ∈ d ++ [x]).
  { destruct (_ <? _); [|exact Hin].
    destruct d as [|y d]; cbn in Hin; [apply elem_of_nil in Hin as []|].
    cbn. right. exact Hin. }
  apply elem_of_app in Hin' as [Hd|Hx]; [auto|].
  apply list_elem_of_singleton in Hx. auto.
Qed.

Lemma fresh_history_ok (its : list K) window ub ab rp mw :
  its ≠ [] → 0 ≤ window → history_ok (fresh its window ub ab rp mw).
Proof.
  intros Hne Hwin. split; [apply fresh_keyed|]. split; [exact Hne|].
  split; [exact Hwin|]. split; [intros k Hk; apply elem_of_nil in Hk as []|].
  split; [intros k p Hk; apply const_map_lookup in Hk; lia|].
  split; [intros k i Hk; apply const_map_lookup in Hk; cbn; lia|].
  apply total_zero. intros k v Hk. apply const_map_lookup in Hk. exact Hk.
Qed.

Lemma note_pick_history_ok (s : t K) (x : K) :
  history_ok s → x ∈ items s → history_ok (fst (_note_pick x s)).
Proof.
  intros (Hk & Hne & Hlen & Hsub & Hnn & Hidx & Htot) Hx.
  assert (Hdom : x ∈ dom (_plays s)) by (apply Hk, Hx).
  destruct (note_pick_known s x Hdom) as (p & Hp & Hnote).
  assert (Hk' : keyed (fst (_note_pick x s)))
    by (eapply note_pick_keyed; [exact Hk|apply surjective_pairing]).
  rewrite Hnote in *. cbn [fst] in *.
  unfold history_ok.
  cbn [items _plays _last_pick_idx _pick_counter _recent recent_window].
  split; [exact Hk'|]. split; [exact Hne|].
  split; [apply deque_append_length, Hlen|].
  split.
  { intros k [Hin| ->]%deque_append_elem; [apply Hsub, Hin|exact Hx]. }
  split.
  { intros k q [[-> <-]|[_ Hq]]%lookup_insert_Some;
      [specialize (Hnn _ _ Hp); lia|eapply Hnn, Hq]. }
  split.
  { intros k i [[-> <-]|[_ Hi]]%lookup_insert_Some;
      [lia|specialize (Hidx _ _ Hi); lia]. }
  unfold total_plays in *. cbn [_plays _pick_counter].
  rewrite (total_insert _ _ _ _ Hp). lia.
Qed.

Lemma choices_from_population (population : list K) ws u x :
  choices population ws u = inr x → x ∈ population.
Proof.
  unfold choices. destruct (last _); [|discriminate].
  destruct (Qlt_le_dec _ _); [|discriminate].
  destruct (population !! _) as [y|] eqn:Hy; [|discriminate].
  intros [= <-]. eapply list_elem_of_lookup_2, Hy.
Qed.

Lemma do_call_history_ok (s : t K) (c : call) :
  history_ok s → history_ok (do_call s c).
Proof.
  intros Hok. pose proof Hok as (Hk & _ & _ & _ & Hc & _).
  destruct c as [x|u]; cbn [do_call].
  - unfold observe, bind, get.
    destruct (bool_decide (x ∈ dom (_plays s))) eqn:Hin; [|exact Hok].
    apply bool_decide_eq_true in Hin.
    apply note_pick_history_ok; [exact Hok|apply (proj1 Hk), Hin].
  - destruct (weights_of_known s (items s) Hk Hc) as (ws & Hws & _); [auto|].
    unfold next, bind, get. fold (@bind K _ _). unfold bind. rewrite Hws.
    destruct (choices (items s) ws u) as [e|x] eqn:Hch; [exact Hok|].
    apply choices_from_population in Hch.
    pose proof (note_pick_history_ok s x Hok Hch) as Hok'.
    destruct (_note_pick x s) as [s' [e|[]]]; exact Hok'.
Qed.

(** X11: the history stays consistent. After any sequence of calls of
    [observe] and [next] on an instance made by the constructor, whatever
    the items observed (known or not) and the draws of the generator: both
    dicts are keyed by the pool, the recent history holds at most
    [recent_window] items, all of the pool, no tally is negative, every
    last-pick index is below the pick counter, and the tallies add up to
    the pick counter. *)
Theorem calls_keep_history (its : list K) (window : Z) (ub ab rp mw : Q)
    (s : t K) (cs : list call) :
  init its window ub ab rp mw = inr s → history_ok (calls cs s).
Proof.
  intros Hinit.
  assert (Hok : history_ok s).
  { rewrite init_cases in Hinit.
    destruct (bool_decide (its = [])) eqn:Hnil; [discriminate|].
    apply bool_decide_eq_false in Hnil.
    destruct (_ || _); [discriminate|].
    destruct (Z.ltb_spec window 0); [discriminate|].
    injection Hinit as <-. apply fresh_history_ok; assumption. }
  clear Hinit. revert s Hok. unfold calls.
  induction cs as [|c cs IH]; intros s Hok; [exact Hok|].
  cbn [foldl]. apply IH, do_call_history_ok, Hok.
Qed.

(** *** The weights *)

Lemma inv_anti (a a' : Q) :
  (0 <= a)%Q → (a <= a')%Q → (1 / (1 + a') <= 1 / (1 + a))%Q.
Proof.
  intros Ha Hle.
  apply Qle_shift_div_l; [lra|].
  assert (Hm : (1 / (1 + a') * (1 + a') == 1)%Q) by (field; lra).
  assert (Hp : (0 < 1 / (1 + a'))%Q) by (apply Qlt_shift_div_l; lra).
  nra.
Qed.

Lemma mul3_le (b b' u u' g g' : Q) :
  (0 <= b' <= b)%Q → (0 <= u' <= u)%Q → (0 <= g' <= g)%Q →
  (b' * u' * g' <= b * u * g)%Q.
Proof.
  intros. apply Qmult_le_compat_nonneg; [|assumption].
  split; [apply Qmult_le_0_compat; lra|].
  apply Qmult_le_compat_nonneg; assumption.
Qed.

Lemma pymax_mono (m a b : Q) : (a <= b)%Q → (pymax m a <= pymax m b)%Q.
Proof.
  intros Hle. unfold pymax.
  destruct (Qlt_le_dec m a), (Qlt_le_dec m b); lra.
Qed.

(** The product of [_weight] before the recency penalty. *)
Lemma product_mono (s : t K) (p p' age age' : Z) :
  (0 <= _unheard_boost s)%Q → (0 <= _age_boost s)%Q →
  0 ≤ p ≤ p' → 0 ≤ age' ≤ age →
  (0 <= raw_weight s p' age' false <= raw_weight s p age false)%Q.
Proof.
  intros Hub Hab [Hp Hpp] [Ha Haa]. unfold raw_weight. cbv zeta.
  assert (Hqp : (0 <= inject_Z p)%Q)
    by (change 0%Q with (inject_Z 0); rewrite <- Zle_Qle; exact Hp).
  assert (Hqpp : (inject_Z p <= inject_Z p')%Q)
    by (rewrite <- Zle_Qle; exact Hpp).
  assert (Hqa : (0 <= inject_Z age')%Q)
    by (change 0%Q with (inject_Z 0); rewrite <- Zle_Qle; exact Ha).
  assert (Hqaa : (inject_Z age' <= inject_Z age)%Q)
    by (rewrite <- Zle_Qle; exact Haa).
  assert (Hb' : (0 < 1 / (1 + inject_Z p'))%Q)
    by (apply Qlt_shift_div_l; lra).
  pose proof (inv_anti _ _ Hqp Hqpp) as Hb.
  assert (Hu : (0 <= 1 + _unheard_boost s * (if p' =? 0 then 1 else 0)
                  <= 1 + _unheard_boost s * (if p =? 0 then 1 else 0))%Q).
  { destruct (Z.eqb_spec p' 0), (Z.eqb_spec p 0); try lia; lra. }
  assert (Hg : (0 <= 1 + _age_boost s * inject_Z age'
                  <= 1 + _age_boost s * inject_Z age)%Q) by nra.
  split.
  - apply Qmult_le_0_compat; [apply Qmult_le_0_compat|]; lra.
  - apply mul3_le; [lra|exact Hu|exact Hg].
Qed.

(** X12: how the weight of an item moves, for boosts and a penalty that
    are not negative: it never falls below the floor [min_weight]; it does
    not grow with the number of plays and does not shrink with the age;
    an item of the recent history weighs no more than it would outside. *)
Theorem weight_favours_unplayed (s : t K) (p p' age age' : Z) (r : bool) :
  (0 <= _unheard_boost s)%Q → (0 <= _age_boost s)%Q →
  (0 <= _recent_penalty s)%Q →
  0 ≤ p ≤ p' → 0 ≤ age' ≤ age →
  let weight p age r := pymax (_min_weight s) (raw_weight s p age r) in
  (_min_weight s <= weight p age r)%Q ∧
  (weight p' age' r <= weight p age r)%Q ∧
  (weight p age true <= weight p age false)%Q.
Proof.
  intros Hub Hab Hrp Hp Ha. cbv zeta.
  split; [apply pymax_ge_l|].
  assert (Hf : (0 <= pymax 0 (1 - _recent_penalty s) <= 1)%Q).
  { unfold pymax. destruct (Qlt_le_dec 0 (1 - _recent_penalty s)); lra. }
  pose proof (product_mono s p p' age age' Hub Hab Hp Ha) as [H0 Hle].
  assert (Hrec : ∀ q a,
             (raw_weight s q a true ==
              raw_weight s q a false * pymax 0 (1 - _recent_penalty s))%Q)
    by (intros; reflexivity).
  split; apply pymax_mono.
  - destruct r; [|exact Hle]. rewrite !Hrec.
    apply Qmult_le_compat_r; [exact Hle|lra].
  - rewrite Hrec.
    assert (H1 : (0 <= raw_weight s p age false)%Q) by lra.
    nra.
Qed.

End ShufflerFurther.

Lemma weight_favours_unplayed_witness :
  let s := Shuffler.two_song_shuffler in
  let weight p age r :=
    Shuffler.pymax (Shuffler._min_weight s) (Shuffler.raw_weight s p age r) in
  (Shuffler._min_weight s <= weight 0%Z 3%Z true)%Q ∧
  (weight 2%Z 1%Z true <= weight 0%Z 3%Z true)%Q ∧
  (weight 0%Z 3%Z true <= weight 0%Z 3%Z false)%Q.
Proof.
  apply (weight_favours_unplayed Shuffler.two_song_shuffler 0 2 3 1 true).
  - vm_compute. discriminate.
  - vm_compute. discriminate.
  - vm_compute. discriminate.
  - lia.
  - lia.
Defined.

Lemma calls_keep_history_witness :
  ShufflerHistory.history_ok
    (ShufflerHistory.calls
       [ShufflerHistory.Observe "songs/billy.wav"%string;
        ShufflerHistory.Next (1 # 2);
        ShufflerHistory.Observe "songs/nope.wav"%string]
       Shuffler.two_song_shuffler).
Proof.
  apply (calls_keep_history Shuffler.two_songs 2 2%Q (15 # 100)%Q
           (10 # 100)%Q (5 # 100)%Q).
  reflexivity.
Defined.


(** ** The dispatcher *)

Section DispatcherFacts.
Import StateManager Dispatcher.

Variable join : Thread → World → World.

Lemma set_state_enters cls now st :
  enters cls now st (set_state join cls now st).
Proof.
  unfold enters, set_state, StateManager.set_state, before_start.
  destruct (stuck (manager st)); [reflexivity|].
  cbn. rewrite drain_empties. auto.
Qed.

Lemma set_state_frame cls now st st' :
  set_state join cls now st = Some st' →
  current_volume st' = current_volume st ∧
  pcm_volume st' = pcm_volume st ∧
  last_hold_time st' = last_hold_time st.
Proof.
  unfold set_state. destruct (StateManager.set_state _ _ _ _ _ _);
    [|discriminate].
  intros [= <-]. auto.
Qed.

Lemma play_column_queue sheet col start end_ hold_last w :
  event_queue (fst (play_column sheet col start end_ hold_last w))
  = event_queue w.
Proof. unfold play_column. cbv zeta. cbn [fst]. destruct (_ && _); reflexivity. Qed.

Lemma sleep_handler_queue evt ck now s w :
  event_queue (snd (SleepState.handle_event evt ck now s w)) = event_queue w.
Proof.
  unfold SleepState.handle_event, SleepState._wake.
  destruct (ck <? _); [reflexivity|].
  destruct evt as [[|]|[|]|[|]|[|]|]; cbn; split_ifs; reflexivity.
Qed.

(** A handler of Sleep never withdraws a wake-up. *)
Lemma sleep_handler_wake evt ck now s w :
  SleepState.wake_requested s = true →
  SleepState.wake_requested (fst (SleepState.handle_event evt ck now s w))
  = true.
Proof.
  intros Hw. unfold SleepState.handle_event, SleepState._wake.
  destruct (ck <? _); [exact Hw|].
  destruct evt as [[|]|[|]|[|]|[|]|]; cbn; rewrite ?Hw; split_ifs; cbn;
    try exact Hw; reflexivity.
Qed.

Lemma dice_handler_queue evt ck rnd d w :
  event_queue (snd (DiceState.handle_event evt ck rnd d w)) = event_queue w.
Proof.
  assert (Hshow : ∀ d w, event_queue (DiceState._show_selection d w)
                         = event_queue w)
    by (intros; apply play_column_queue).
  assert (Hstrip : ∀ n d w, event_queue (DiceState._play_result_strip n d w)
                            = event_queue w).
  { intros n d' w'. unfold DiceState._play_result_strip.
    destruct (DiceState.last_result d'); [apply play_column_queue|reflexivity]. }
  assert (Hroll : ∀ d w, event_queue (snd (DiceState._roll_current rnd d w))
                         = event_queue w).
  { intros d' w'. unfold DiceState._roll_current. cbv zeta.
    destruct (interrupt_requested _); cbn [snd].
    - rewrite Hshow, play_column_queue. reflexivity.
    - destruct (rnd =? 1); [|destruct (bool_decide _)]; cbn [event_queue emit_hw];
        rewrite ?play_column_queue; reflexivity. }
  unfold DiceState.handle_event.
  destruct (ck <? _); [reflexivity|].
  destruct evt as [[|]|[|]|[|]|[|]|], (DiceState.mode d); cbn [snd];
    rewrite ?Hroll, ?Hshow, ?Hstrip; try reflexivity.
  all: destruct (interrupt_requested w); reflexivity.
Qed.

Lemma enters_step_ok cls now st r : enters cls now st r → step_ok st r.
Proof. destruct r as [st'|]; cbn; [intros (_ & _ & Hq & _); auto|auto]. Qed.

Lemma handle_event_step r evt st : step_ok st (handle_event join r evt st).
Proof.
  unfold handle_event.
  destruct (state (manager st)) as [[| | | | |d|s|b]|] eqn:Hst;
    try (right; split; [reflexivity|exact id]).
  - destruct evt as [[|]|[|]|[|]|[|]|];
      try (right; split; [reflexivity|exact id]);
      eapply enters_step_ok, set_state_enters.
  - right. split; [apply dice_handler_queue|].
    unfold stuck. cbn. destruct (awaited _); discriminate.
  - right. split; [apply sleep_handler_queue|].
    unfold stuck, awaited. cbn. rewrite Hst.
    destruct (thread (manager st)) as [th|]; [|discriminate].
    destruct (_ && _); [|discriminate]. cbn.
    destruct (SleepState.wake_requested s) eqn:Hw; [|reflexivity].
    rewrite sleep_handler_wake by exact Hw. discriminate.
Qed.

Lemma dispatch_one_step r evt st : step_ok st (dispatch_one join r evt st).
Proof.
  unfold dispatch_one.
  destruct evt as [[|]|[|]|[|]|[|]|]; cbv zeta; split_ifs;
    try apply handle_event_step;
    try (eapply enters_step_ok, set_state_enters);
    try (right; split; [reflexivity|exact id]).
  all: try match goal with
       | |- step_ok ?st (?f (raise_interrupt ?st)) =>
           exact (handle_event_step _ _ (raise_interrupt st))
       | |- step_ok ?st (set_state _ ?cls ?now ?x) =>
           exact (enters_step_ok _ _ _ _ (set_state_enters cls now x))
       end.
Qed.

Variable reads : nat → Reads.

Lemma dispatch_loop_done turns n st :
  event_queue (world st) = [] →
  dispatch_loop join reads turns n st = Some st.
Proof. intros Hq. destruct turns; cbn; [|rewrite Hq]; reflexivity. Qed.

Lemma dispatch_loop_empties turns : ∀ n st,
  (length (event_queue (world st)) ≤ turns)%nat →
  match dispatch_loop join reads turns n st with
  | Some st' => event_queue (world st') = []
  | None => stuck (manager st) = true
  end.
Proof.
  induction turns as [|turns IH]; intros n st Hlen.
  - cbn. destruct (event_queue (world st)); [reflexivity|cbn in Hlen; lia].
  - cbn [dispatch_loop].
    destruct (event_queue (world st)) as [|evt rest] eqn:Hq; [exact Hq|].
    pose proof (dispatch_one_step (reads n) evt
                  (set_world (set_event_queue rest (world st)) st)) as Hstep.
    destruct (dispatch_one join (reads n) evt _) as [st1|]; [|exact Hstep].
    cbn in Hstep. specialize (IH (S n) st1).
    destruct Hstep as [Hq1|[Hq1 Hstuck]].
    + rewrite dispatch_loop_done by exact Hq1. exact Hq1.
    + destruct (dispatch_loop join reads turns (S n) st1);
        [apply IH|apply Hstuck, IH]; rewrite Hq1; cbn in *; lia.
Qed.

(** X13: [dispatch_events] comes back, and with an empty queue (every
    event that was queued handled or dropped), unless the worker of the
    active state is one that never ends, where a [set_state] met on the
    way waits for ever. *)
Theorem dispatch_events_empties_queue (st : t) :
  match dispatch_events join reads st with
  | Some st' => event_queue (world st') = []
  | None => stuck (manager st) = true
  end.
Proof. apply dispatch_loop_empties. reflexivity. Qed.

Lemma switches_enters r evt st :
  switches r evt st = true →
  ∃ cls, enters cls (ck_ctor r) st (dispatch_one join r evt st).
Proof.
  unfold switches, dispatch_one, handle_event, is_sleep, is_dice.
  destruct evt as [[|]|[|]|[|]|[|]|]; cbv zeta;
    destruct (state (manager st)) as [[| | | | |d|s|b]|] eqn:Hst;
    cbn [negb]; try discriminate; intros Hsw.
  all: try (rewrite (proj2 (Z.ltb_ge _ _)) by (apply Z.leb_le, Hsw)).
  all: match goal with
       | |- context [set_state _ ?cls ?now ?x] =>
           exists cls; exact (set_state_enters cls now x)
       end.
Qed.

(** X14: an event that makes the dispatcher enter another state (a tap in
    Idle, a chord or a five-tap of button 1 outside Sleep, a hold of button
    2, a five-tap of button 2 not within 2s of its last hold) ends the
    dispatch loop. Either the worker of the active state can be joined:
    then the new state is entered with the interrupt flag down, and the
    events queued behind are dropped without being handled. Or it cannot
    (Sleep not woken, or Shutdown, with a live worker): then
    [dispatch_events] never comes back. *)
Theorem switch_drops_queued_events (st : t) (evt : Gesture)
    (rest : list Gesture) :
  event_queue (world st) = evt :: rest →
  let popped := set_world (set_event_queue rest (world st)) st in
  switches (reads 0) evt popped = true →
  dispatch_events join reads st = dispatch_one join (reads 0) evt popped ∧
  ∃ cls, enters cls (ck_ctor (reads 0)) st (dispatch_events join reads st).
Proof.
  intros Hq popped Hsw.
  destruct (switches_enters _ _ _ Hsw) as [cls Hcls].
  assert (Heq : dispatch_events join reads st
                = dispatch_one join (reads 0) evt popped).
  { unfold dispatch_events. rewrite Hq. cbn [length dispatch_loop].
    rewrite Hq. fold popped.
    destruct (dispatch_one join (reads 0) evt popped) as [st1|];
      [|reflexivity].
    apply dispatch_loop_done, Hcls. }
  rewrite Heq. split; [reflexivity|]. exists cls. exact Hcls.
Qed.

(** X15: a hold of button 1 toggles the volume and changes nothing else:
    the new level is always one of the two levels 100 and 255 (255 for any
    level other than 255), it is the value passed to [set_pcm_volume], the
    beep is played, the state, the queue and the interrupt flag are left
    alone; a second hold brings back the level the first one found, if that
    was one of the two. *)
Theorem hold_b1_toggles_volume (r r' : Reads) (st : t) :
  ∃ st', dispatch_one join r (Hold B1) st = Some st' ∧
  (current_volume st' = VOLUME_LOW ∨ current_volume st' = VOLUME_HIGH) ∧
  current_volume st' ≠ current_volume st ∧
  pcm_volume st' = pcm_volume st ++ [current_volume st'] ∧
  manager st' = manager st ∧
  world st' = emit_hw [PlayAudio "fx/beep.wav" false] (world st) ∧
  (current_volume st = VOLUME_LOW ∨ current_volume st = VOLUME_HIGH →
   ∃ st'', dispatch_one join r' (Hold B1) st' = Some st'' ∧
           current_volume st'' = current_volume st).
Proof.
  destruct st as [m w v calls holds].
  unfold dispatch_one, play_audio, set_world, VOLUME_LOW, VOLUME_HIGH. cbn.
  eexists. split; [reflexivity|]. cbn.
  destruct (Z.eqb_spec v 255) as [Heq|Hne]; cbn.
  - split; [auto|]. split; [lia|]. do 3 (split; [reflexivity|]).
    intros _. eexists. split; [reflexivity|]. cbn. symmetry. exact Heq.
  - split; [auto|]. split; [lia|]. do 3 (split; [reflexivity|]).
    intros [Hv|Hv]; [|lia]. eexists. split; [reflexivity|]. cbn.
    symmetry. exact Hv.
Qed.

(** X16: the guard of the shutdown gesture. A five-tap of button 2 that is
    handled less than 2s after the last hold of button 2 does nothing at
    all. Any other one enters Shutdown, with the queue emptied and the
    interrupt flag down, if the worker of the active state can be joined;
    if it cannot, the dispatcher never comes back from it. *)
Theorem five_tap_b2_guarded (r : Reads) (st : t) :
  if ck_since_hold r - sel (last_hold_time st) B2 <? HOLD_TAP_IGNORE_SEC
  then dispatch_one join r (FiveTap B2) st = Some st
  else enters ShutdownState (ck_ctor r) st
              (dispatch_one join r (FiveTap B2) st) ∧
       match dispatch_one join r (FiveTap B2) st with
       | Some st' => state (manager st') = Some (Shutdown false)
       | None => True
       end.
Proof.
  unfold dispatch_one. cbv zeta.
  destruct (_ <? _); [reflexivity|].
  pose proof (set_state_enters ShutdownState (ck_ctor r)
                (play_audio "fx/guardiandown.wav" (raise_interrupt st)))
    as Hent.
  split; [exact Hent|].
  destruct (set_state join _ _ _); [apply Hent|exact I].
Qed.

(** X17: the chord toggles Dice, except in Sleep. In Sleep the chord is
    ignored. In Dice, whose worker ends as soon as the interrupt flag is
    up, it enters Idle. In every other state, and before any state is set,
    it enters a fresh Dice if the worker of the active state can be joined,
    and never comes back if it cannot (Shutdown with a live worker).
    Entering empties the queue and leaves the interrupt flag down. *)
Theorem chord_toggles_dice (r : Reads) (st : t) :
  match state (manager st) with
  | Some (Sleep _) => dispatch_one join r Chord st = Some st
  | Some (Dice _) =>
      ∃ st', dispatch_one join r Chord st = Some st' ∧
             state (manager st') = Some Idle ∧
             event_queue (world st') = [] ∧
             interrupt_requested (world st') = false
  | _ =>
      enters DiceState (ck_ctor r) st (dispatch_one join r Chord st) ∧
      match dispatch_one join r Chord st with
      | Some st' =>
          state (manager st') = Some (Dice (DiceState.init (ck_ctor r)))
      | None => True
      end
  end.
Proof.
  unfold dispatch_one, is_sleep, is_dice.
  destruct (state (manager st)) as [[| | | | |d|s|b]|] eqn:Hst;
    try reflexivity.
  6:{ pose proof (set_state_enters IdleState (ck_ctor r) st) as Hent.
      destruct (set_state join IdleState (ck_ctor r) st) as [st'|].
      - exists st'. split; [reflexivity|]. apply Hent.
      - cbn in Hent. unfold stuck in Hent. rewrite Hst in Hent.
        destruct (awaited _); discriminate. }
  all: pose proof (set_state_enters DiceState (ck_ctor r) st) as Hent;
    (split; [exact Hent|]);
    destruct (set_state join DiceState (ck_ctor r) st); [apply Hent|exact I].
Qed.

Lemma play_column_interrupt sheet col start end_ hold_last w :
  interrupt_requested (fst (play_column sheet col start end_ hold_last w))
  = interrupt_requested w.
Proof. unfold play_column. cbv zeta. cbn [fst]. destruct (_ && _); reflexivity. Qed.

(** X18: a double tap raises the interrupt flag in every state but Dice,
    and leaves the state as it is; in Dice the dispatcher does not raise
    it, and the handler of Dice never does: the flag can only go down
    there. *)
Theorem double_interrupts_unless_dice (r : Reads) (b : Btn) (st : t) :
  ∃ st', dispatch_one join r (Double b) st = Some st' ∧
  if is_dice st
  then interrupt_requested (world st') = true →
       interrupt_requested (world st) = true
  else interrupt_requested (world st') = true ∧
       state (manager st') = state (manager st).
Proof.
  unfold dispatch_one, is_dice, handle_event.
  destruct (state (manager st)) as [[| | | | |d|s|b']|] eqn:Hst;
    cbn [raise_interrupt set_world world manager]; rewrite ?Hst.
  1-5,8,9: destruct b; eexists; (split; [reflexivity|]); cbn; rewrite ?Hst; auto.
  - eexists. split; [reflexivity|].
    unfold DiceState.handle_event. cbn [set_state_obj set_world world].
    destruct (_ <? _); [cbn; auto|].
    destruct b; cbn [snd].
    + destruct (interrupt_requested (world st)) eqn:Hi; cbn; rewrite ?Hi; auto.
    + unfold DiceState._show_selection. rewrite play_column_interrupt.
      destruct (interrupt_requested (world st)) eqn:Hi; cbn; rewrite ?Hi; auto.
  - eexists. split; [reflexivity|].
    unfold SleepState.handle_event.
    destruct (_ <? _); destruct b; cbn; destruct s; auto.
Qed.

(** X19: waking up. When Sleep, past its settle time and not yet woken,
    gets the five-tap of button 1 as the only queued event, the dispatcher
    hands it to Sleep, which turns the backlight on and asks for Boot; the
    switch of the main loop that follows joins the worker of Sleep, which
    ends now that the wake-up is requested, enters Boot, withdraws the
    request and leaves the queue empty and the interrupt flag down. *)
Theorem five_tap_wakes_to_boot (now : Z) (s : SleepState.t) (st : t) :
  state (manager st) = Some (Sleep s) →
  event_queue (world st) = [FiveTap B1] →
  SleepState.settle_until s ≤ ck_settle (reads 0) →
  SleepState.wake_requested s = false →
  ∃ woken st',
    dispatch_events join reads st = Some woken ∧
    pending_switch join now woken = Some st' ∧
    next_state (world woken) = Some BootState ∧
    interrupt_requested (world woken) = true ∧
    hw (world woken) = hw (world st) ++ [Backlight true; DisplayInit] ∧
    state (manager st') = Some Boot ∧
    next_state (world st') = None ∧
    event_queue (world st') = [] ∧
    interrupt_requested (world st') = false.
Proof.
  intros Hst Hq Hsettle Hwake.
  unfold dispatch_events. rewrite Hq. cbn [length dispatch_loop]. rewrite Hq.
  assert (Hlt : (ck_settle (reads 0) <? SleepState.settle_until s) = false)
    by (apply Z.ltb_ge, Hsettle).
  assert (H1 : ∃ st1,
             dispatch_one join (reads 0) (FiveTap B1)
               (set_world (set_event_queue [] (world st)) st) = Some st1 ∧
             next_state (world st1) = Some BootState ∧
             interrupt_requested (world st1) = true ∧
             hw (world st1) = hw (world st) ++ [Backlight true; DisplayInit] ∧
             stuck (manager st1) = false).
  { unfold dispatch_one, is_sleep, handle_event.
    cbn [set_world manager world]. rewrite Hst. cbn [negb].
    eexists. split; [reflexivity|].
    unfold SleepState.handle_event, SleepState._wake. rewrite Hlt, Hwake.
    cbn. do 3 (split; [reflexivity|]).
    unfold stuck. cbn. destruct (awaited _); reflexivity. }
  destruct H1 as (st1 & -> & Hn & Hi & Hhw & Hstuck).
  exists st1.
  pose proof (set_state_enters BootState now st1) as Hent.
  unfold pending_switch. rewrite Hn.
  destruct (set_state join BootState now st1) as [st2|]; cbn in Hent;
    [|congruence].
  destruct Hent as (_ & E1 & E2 & E3).
  eexists. split; [reflexivity|]. split; [reflexivity|].
  split; [reflexivity || exact Hn|]. split; [exact Hi|]. split; [exact Hhw|].
  destruct st2 as [m2 w2 v2 c2 h2]. cbn in *.
  rewrite drain_empties. auto.
Qed.

End DispatcherFacts.

Lemma switch_drops_queued_events_witness :
  let st := Dispatcher.idling [Tap B1; Tap B2; Hold B2] in
  Dispatcher.dispatch_events (λ _ w, w) (λ _, Dispatcher.reads_at 5000) st
  = Dispatcher.dispatch_one (λ _ w, w) (Dispatcher.reads_at 5000) (Tap B1)
      (Dispatcher.set_world (set_event_queue [Tap B2; Hold B2] (Dispatcher.world st)) st).
Proof.
  apply (switch_drops_queued_events (λ _ w, w)
           (λ _, Dispatcher.reads_at 5000)
           (Dispatcher.idling [Tap B1; Tap B2; Hold B2]) (Tap B1)
           [Tap B2; Hold B2]).
  - reflexivity.
  - reflexivity.
Defined.

Lemma five_tap_wakes_to_boot_witness :
  ∃ woken st',
    Dispatcher.dispatch_events (λ _ w, w) (λ _, Dispatcher.reads_at 5000)
      (Dispatcher.asleep [FiveTap B1]) = Some woken ∧
    Dispatcher.pending_switch (λ _ w, w) 5010 woken = Some st' ∧
    StateManager.state (Dispatcher.manager st') = Some StateManager.Boot.
Proof.
  destruct (five_tap_wakes_to_boot (λ _ w, w)
              (λ _, Dispatcher.reads_at 5000) 5010 (SleepState.init 1000)
              (Dispatcher.asleep [FiveTap B1]))
    as (woken & st' & H1 & H2 & _ & _ & _ & H3 & _).
  - reflexivity.
  - reflexivity.
  - vm_compute. discriminate.
  - reflexivity.
  - exists woken, st'. auto.
Defined.

(** ** Dice *)

Section DiceFurther.
Import DiceState.

Lemma roll_current_ok rnd self w :
  (selected_index self < length dice_names)%nat →
  dice_ok (fst (_roll_current rnd self w)).
Proof.
  intros Hidx. unfold _roll_current. cbv zeta.
  destruct (interrupt_requested _); cbn [fst]; split; cbn; auto;
    try discriminate; eauto.
Qed.

Lemma dice_handle_event_ok evt ck rnd self w :
  dice_ok self → dice_ok (fst (handle_event evt ck rnd self w)).
Proof.
  intros Hok. pose proof Hok as [Hidx Hres]. unfold handle_event.
  destruct (ck <? _); [exact Hok|].
  assert (Hmod : ∀ i, ((i + 1) `mod` length dice_names < length dice_names)%nat)
    by (intros i; apply Nat.mod_upper_bound; discriminate).
  destruct evt as [[|]|[|]|[|]|[|]|], (mode self) eqn:Hm; cbn [fst]; auto.
  all: try (apply roll_current_ok; exact Hidx).
  all: split; cbn; auto; try discriminate; try (cbn; lia).
  all: rewrite Hm; exact Hres.
Qed.

(** X20: Dice never leaves the range of its dice. From the state the
    constructor leaves and through any run of events, whatever the clock,
    the interrupt flag and the draws: the selected index stays below 7,
    so that [dice_names] and [MAX_VALS] are never indexed out of range, and
    a result is recorded whenever the mode is "result". *)
Theorem dice_stays_in_range (evs : list (Gesture * Z * Z)) (now : Z)
    (w : World) :
  dice_ok (fst (dice_events evs (init now) w)).
Proof.
  assert (Hinit : dice_ok (init now)) by (split; cbn; [lia|discriminate]).
  revert Hinit. generalize (init now). revert w.
  induction evs as [|[[evt ck] rnd] rest IH]; intros w self Hok; [exact Hok|].
  cbn [dice_events]. apply IH, dice_handle_event_ok, Hok.
Qed.

(** X21: taps of button 2 walk through the dice in a cycle. In selection
    mode and past the settle time, [n] taps of button 2 move the selection
    [n] places on, modulo the seven dice, and stay in selection mode; seven
    taps come back to the same die. *)
Theorem b2_taps_cycle (cks : list Z) (rnd : Z) (self : t) (w : World) :
  mode self = selection → (selected_index self < 7)%nat →
  Forall (λ ck, settle_until self ≤ ck) cks →
  let self' := fst (dice_events ((λ ck, (Tap B2, ck, rnd)) <$> cks) self w) in
  selected_index self' = ((selected_index self + length cks) `mod` 7)%nat ∧
  mode self' = selection ∧
  (length cks = 7%nat → selected_index self' = selected_index self).
Proof.
  intros Hm Hi Hck. cbv zeta.
  assert (Hmain :
    selected_index (fst (dice_events ((λ ck, (Tap B2, ck, rnd)) <$> cks) self w))
      = ((selected_index self + length cks) `mod` 7)%nat ∧
    mode (fst (dice_events ((λ ck, (Tap B2, ck, rnd)) <$> cks) self w))
      = selection).
  { revert self w Hm Hi Hck.
    induction cks as [|ck cks IH]; intros self w Hm Hi Hck.
    - cbn [fmap list_fmap dice_events fst length].
      rewrite Nat.add_0_r, Nat.mod_small by exact Hi. auto.
    - apply Forall_cons in Hck as [Hc Hrest].
      cbn [fmap list_fmap dice_events].
      assert (Hlt : (ck <? settle_until self) = false) by (apply Z.ltb_ge, Hc).
      unfold handle_event at 1 2 3 4. rewrite Hlt, Hm. cbn [fst snd].
      set (self1 := set_selected_index _ self).
      set (w1 := _show_selection self1 _).
      assert (Hi1 : (selected_index self1 < 7)%nat)
        by (apply Nat.mod_upper_bound; discriminate).
      destruct (IH self1 w1 Hm Hi1 Hrest) as [Hidx' Hm'].
      split; [|exact Hm']. rewrite Hidx'.
      cbn [selected_index self1 set_selected_index length dice_names].
      rewrite Nat.Div0.add_mod_idemp_l. f_equal. lia. }
  destruct Hmain as [Hidx Hmode].
  split; [exact Hidx|]. split; [exact Hmode|].
  intros Hlen. rewrite Hidx, Hlen.
  replace (selected_index self + 7)%nat
    with (selected_index self + 1 * 7)%nat by lia.
  rewrite Nat.Div0.mod_add. apply Nat.mod_small, Hi.
Qed.

End DiceFurther.

Lemma b2_taps_cycle_witness :
  DiceState.selected_index
    (fst (dice_events ((λ ck, (Tap B2, ck, 1)) <$> [2000; 2500; 3000])
            (DiceState.init 1000) (mkWorld false [] None [])))
  = 3%nat.
Proof.
  apply (b2_taps_cycle [2000; 2500; 3000] 1 (DiceState.init 1000)
           (mkWorld false [] None [])).
  - reflexivity.
  - cbn. lia.
  - repeat constructor; cbn; lia.
Defined.

(** ** Sleep *)

Section SleepFurther.
Import SleepState.

(** X22: slow taps do not wake. Taps of button 1 that reach Sleep past its
    settle time, each 600ms (the tap window) or more after the one before,
    never add up: the count is back at one after each of them, no wake-up
    is requested and nothing outside the state is touched. *)
Theorem slow_taps_never_wake (times : list Z) (self : t) (w : World) :
  wake_requested self = false →
  Forall (λ now, settle_until self ≤ now) times →
  spaced (sleep_tap_window self) (last_tap_time self) times →
  snd (taps times self w) = w ∧
  wake_requested (fst (taps times self w)) = false ∧
  (times ≠ [] → wake_taps (fst (taps times self w)) = 1).
Proof.
  revert self. induction times as [|now rest IH]; intros self Hw Hsettle Hsp.
  - split; [reflexivity|]. split; [exact Hw|]. intros Hne. destruct Hne.
    reflexivity.
  - apply Forall_cons in Hsettle as [Hs Hrest]. destruct Hsp as [Hgap Hsp].
    cbn [taps]. unfold handle_event.
    destruct (Z.ltb_spec now (settle_until self)) as [?|_]; [lia|].
    destruct (Z.ltb_spec (now - last_tap_time self) (sleep_tap_window self))
      as [?|_]; [lia|].
    cbn [wake_taps]. cbn [Z.leb Z.compare].
    set (self1 := mk 1 now _ _ _).
    destruct (IH self1 Hw Hrest Hsp) as (H1 & H2 & H3).
    split; [exact H1|]. split; [exact H2|]. intros _.
    destruct rest as [|now' rest']; [reflexivity|]. apply H3. discriminate.
Qed.

End SleepFurther.

Lemma slow_taps_never_wake_witness :
  snd (SleepState.taps [2000; 2700; 3400; 4100; 4800; 5500]
         (SleepState.init 1000) (mkWorld false [] None []))
  = mkWorld false [] None [].
Proof.
  apply (slow_taps_never_wake [2000; 2700; 3400; 4100; 4800; 5500]
           (SleepState.init 1000) (mkWorld false [] None [])).
  - reflexivity.
  - repeat constructor; cbn; lia.
  - cbn. lia.
Defined.

(** ** Releases without a press, and chords that time out *)

Section Orphans.

Lemma syn_release_press_time btn now_mon ck s :
  sel (press_time (fst (syn_release btn now_mon ck s))) btn = None.
Proof.
  unfold syn_release. cbv zeta. cbn [fst].
  destruct (fst (and_then _ _ _)) as [[pt1 pt2] ? ? ? ? ? ? ? ? ? ?].
  destruct btn; reflexivity.
Qed.

(** X23: a release edge that arrives after the resync block has already
    synthesized the release of that button finds no press to measure. It
    logs no pulse and posts nothing, and it clears the tally and the
    deadline of the button, the tap that the synthesized release may have
    counted included; a pending chord is left pending. *)
Theorem release_after_synthesized_release (btn : Btn) (now_mon t : Z)
    (ck ck' : Clock) (s : Monitor) :
  let s1 := fst (syn_release btn now_mon ck s) in
  let r := release_edge btn t ck' s1 in
  snd r = [] ∧
  sel (tap_count (fst r)) btn = 0 ∧ sel (decide_at (fst r)) btn = None ∧
  sel (down (fst r)) btn = false ∧
  chord_pending (fst r) = chord_pending s1 ∧
  chord_armed (fst r) = chord_armed s1.
Proof.
  cbv zeta. unfold release_edge. rewrite syn_release_press_time.
  cbn [fst snd].
  destruct (fst (syn_release btn now_mon ck s))
    as [? [tc1 tc2] [da1 da2] [dn1 dn2] ? ? ? ? ? ? ?].
  destruct btn; cbn; auto 10.
Qed.

(** X24: a chord that stays pending for more than a second is discarded.
    Step 4 of an iteration that finds a chord pending, detected at a
    non-zero clock reading more than 1000ms ago, posts nothing, withdraws
    the chord and re-arms the detection; whatever edge comes next, on the
    state it leaves, posts no Chord. *)
Theorem stale_chord_discarded (now d : Z) (s : Monitor) :
  chord_pending s = true → chord_detect_time s = Some d → d ≠ 0 →
  CHORD_TIMEOUT < now - d →
  let s' := fst (chord_timeout now s) in
  snd (chord_timeout now s) = [] ∧
  chord_pending s' = false ∧ chord_armed s' = true ∧
  chord_detect_time s' = None ∧
  ∀ e ck, Chord ∉ posted (snd (process_edge e ck s')).
Proof.
  intros Hp Hd Hnz Hlate. cbv zeta.
  assert (Heq : chord_timeout now s =
                (s |> set_chord_pending false |> set_chord_detect_time None
                   |> set_chord_armed true, [])).
  { unfold chord_timeout, truthy. rewrite Hd, Hp.
    destruct (Z.eqb_spec d 0); [contradiction|].
    destruct (Z.ltb_spec CHORD_TIMEOUT (now - d)); [reflexivity|lia]. }
  rewrite Heq. cbn [fst snd].
  split; [reflexivity|]. do 3 (split; [reflexivity|]).
  intros e ck Hin.
  destruct e as [[[b [|]] t]|]; cbn [process_edge] in Hin.
  - cbn in Hin. apply elem_of_nil in Hin as [].
  - unfold release_edge in Hin.
    destruct (sel (press_time _) b) as [p|];
      [|cbn in Hin; apply elem_of_nil in Hin as []].
    cbv zeta in Hin. rewrite and_then_eq in Hin. cbn [fst snd] in Hin.
    rewrite posted_release, posted_app in Hin.
    apply elem_of_app in Hin as [Hin|Hin].
    + unfold rearm_chord in Hin.
      destruct (_ && _); cbn in Hin; apply elem_of_nil in Hin as [].
    + revert Hin. generalize (fst (rearm_chord ck
        (set_press_time (upd b None)
           (set_down (upd b false)
              (s |> set_chord_pending false |> set_chord_detect_time None
                 |> set_chord_armed true))))).
      intros s2 Hin. unfold classify_pulse in Hin.
      repeat match type of Hin with
             | context [if ?c then _ else _] => destruct c
             | context [match ?c with B1 => _ | B2 => _ end] => destruct c
             end; cbn in Hin;
        repeat (apply elem_of_cons in Hin as [Hin|Hin]; [discriminate|]);
        apply elem_of_nil in Hin as [].
  - cbn in Hin. apply elem_of_nil in Hin as [].
Qed.

End Orphans.

Lemma stale_chord_discarded_witness :
  chord_pending
    (fst (chord_timeout 2100
            (fst (run [chord_press_1; chord_press_2] initial)))) = false.
Proof.
  apply (stale_chord_discarded 2100 1050
           (fst (run [chord_press_1; chord_press_2] initial))).
  - reflexivity.
  - reflexivity.
  - discriminate.
  - vm_compute. reflexivity.
Defined.
